(** * RSS_Telegram: the deduplication, scoring and summarisation pipeline

    A shallow embedding of [rss_to_telegram.py] (the delivery pipeline) and of
    [Python_code.py] (the display front-end, which shares the text functions),
    with the properties of the pipeline stated and proved over it.

    Conventions of the embedding.
    - A Python [str] is a list of characters; a character is a code point in
      the range U+0000..U+00FF, carried by [ascii].  The character classes of
      [re] and of the [str] methods are the ones CPython has on that range.
    - A Python [int] is a [Z]; a [float] is the rational number it denotes.
    - A Python [set] of strings is a [gset]; a [list] is a [list].
    - The dictionaries of the program have a fixed set of keys and are
      records; a key read with [.get(k, "")] that is missing is the empty
      string. *)

From Stdlib Require Import ZArith QArith Ascii String DecimalString List Lia Permutation.
From stdpp Require Import gmap strings list sorting.

Abbreviation str := (list ascii).

(** A string literal of the source. *)
Definition lit (s : string) : str := list_ascii_of_string s.

(** ** Characters *)

Module Char.

Definition code (c : ascii) : N := N_of_ascii c.

Definition between (lo hi : N) (c : ascii) : bool :=
  ((lo <=? code c) && (code c <=? hi))%N.

(** [str.isspace] on one character, which is also [\s] of [re] on a [str]
    pattern and the class [str.strip] removes: TAB..CR, FS..US, SPACE, NEL
    and NO-BREAK SPACE. *)
Definition is_space (c : ascii) : bool :=
  between 9 13 c || between 28 32 c || (code c =? 133)%N || (code c =? 160)%N.

(** [str.isalnum] on one character: letters, digits and numerics of the
    range. *)
Definition is_alnum (c : ascii) : bool :=
  between 48 57 c || between 65 90 c || between 97 122 c
  || (code c =? 170)%N || between 178 179 c || (code c =? 181)%N
  || between 185 186 c || between 188 190 c
  || between 192 214 c || between 216 246 c || between 248 255 c.

(** [\w] of [re] on a [str] pattern: alphanumeric or underscore. *)
Definition is_word (c : ascii) : bool := is_alnum c || (code c =? 95)%N.

(** [str.lower] on one character: A..Z and the capital letters U+00C0..U+00DE
    (but not the multiplication sign U+00D7) move up by 32. *)
Definition lower (c : ascii) : ascii :=
  if between 65 90 c || between 192 214 c || between 216 222 c
  then ascii_of_N (code c + 32) else c.

(** The sentence terminators of the summariser: [[.!?]]. *)
Definition is_terminator (c : ascii) : bool :=
  (code c =? 46)%N || (code c =? 33)%N || (code c =? 63)%N.

Definition ltb (c d : ascii) : bool := (code c <? code d)%N.

End Char.

(** ** Strings *)

(** [s.lower()]. *)
Definition lower (s : str) : str := map Char.lower s.

(** [s.lstrip()], [s.rstrip()] and [s.strip()]. *)
Fixpoint lstrip (s : str) : str :=
  match s with
  | [] => []
  | c :: s' => if Char.is_space c then lstrip s' else s
  end.

Definition rstrip (s : str) : str := rev (lstrip (rev s)).

Definition strip (s : str) : str := rstrip (lstrip s).

(** [sep.join(parts)]. *)
Fixpoint join (sep : str) (parts : list str) : str :=
  match parts with
  | [] => []
  | [p] => p
  | p :: ps => p ++ sep ++ join sep ps
  end.

(** [xs[:n]] for an [int] [n]: a negative bound counts from the end. *)
Definition slice_to {A} (xs : list A) (n : Z) : list A :=
  if (0 <=? n)%Z then take (Z.to_nat n) xs
  else take (length xs - Z.to_nat (- n)) xs.

(** [s < t] on two [str]: lexicographic on code points. *)
Fixpoint str_ltb (s t : str) : bool :=
  match s, t with
  | _, [] => false
  | [], _ :: _ => true
  | c :: s', d :: t' =>
      if Char.ltb c d then true
      else if Char.ltb d c then false
      else str_ltb s' t'
  end.

(** ** Floats *)

(** The integer nearest to [n / d], ties to the even one ([0 <= n], [0 < d]). *)
Definition round_half_even (n d : Z) : Z :=
  let q := (n / d)%Z in
  match (2 * (n mod d) ?= d)%Z with
  | Lt => q
  | Gt => (q + 1)%Z
  | Eq => if Z.even q then q else (q + 1)%Z
  end.

(** [a / b] on two [int] ([0 <= a], [0 < b]): true division returns the
    binary64 number nearest to the quotient, ties to even.  The quotient is
    scaled by [2 ^ e] into [[2^52, 2^53)] ([e] is capped at 1074, where the
    subnormal numbers start), rounded to an integer and scaled back.
    Quotients of [2 ^ 1024] and more, where CPython raises [OverflowError], are
    outside this model; the program divides a smaller by a larger number. *)
Definition py_truediv (a b : Z) : Q :=
  if (a =? 0)%Z then 0%Q
  else
    let k := (Z.log2 b - Z.log2 a)%Z in
    let e0 := if (b * 2 ^ Z.max (- k) 0 <=? a * 2 ^ Z.max k 0)%Z
              then (52 + k)%Z else (53 + k)%Z in
    let e := Z.min e0 1074 in
    let m := round_half_even (a * 2 ^ Z.max e 0) (b * 2 ^ Z.max (- e) 0) in
    Qmake (m * 2 ^ Z.max (- e) 0) (Z.to_pos (2 ^ Z.max e 0)).

(** [x < y] on two floats. *)
Definition float_ltb (x y : Q) : bool := negb (Qle_bool y x).

#[global] Instance Qeq_decision (x y : Q) : Decision (x == y)%Q := Qeq_dec x y.

#[global] Instance Qlt_decision (x y : Q) : Decision (x < y)%Q :=
  match Qlt_le_dec x y with
  | left H => left H
  | right H => right (Qle_not_lt _ _ H)
  end.

(** ** Tokenizer and similarity scorer *)

(** The run of word characters read so far ([cur], reversed) as a match. *)
Definition flush (cur : str) : list str :=
  match cur with
  | [] => []
  | _ => [rev cur]
  end.

(** [WORD_RE.findall(s)] for [WORD_RE = re.compile(r"\w+")]: the maximal runs
    of word characters, left to right. *)
Fixpoint findall_words (cur : str) (s : str) : list str :=
  match s with
  | [] => flush cur
  | c :: s' =>
      if Char.is_word c then findall_words (c :: cur) s'
      else flush cur ++ findall_words [] s'
  end.

Definition text_to_tokens (text : str) : gset str :=
  list_to_set (map lower (findall_words [] text)).

Definition simple_similarity (a b : str) : Q :=
  let ta := text_to_tokens a in
  let tb := text_to_tokens b in
  if bool_decide (ta = ∅) || bool_decide (tb = ∅) then 0%Q
  else
    let inter := size (ta ∩ tb) in
    py_truediv (Z.of_nat inter) (Z.of_nat (size ta + size tb)).

(** ** Summarizer *)

(** Puts a character in front of the first piece. *)
Definition cons_head (c : ascii) (pieces : list str) : list str :=
  match pieces with
  | [] => [[c]]
  | p :: ps => (c :: p) :: ps
  end.

(** [re.split(r"(?<=[.!?])\s+", s)]: a separator is a maximal run of white
    space that comes right after a terminator.  [after_term] says that the
    character before [s] is a terminator, [in_sep] that it belongs to a
    separator that is still being read. *)
Fixpoint split_sentences (after_term in_sep : bool) (s : str) : list str :=
  match s with
  | [] => [[]]
  | c :: s' =>
      if Char.is_space c then
        if in_sep then split_sentences false true s'
        else if after_term then [] :: split_sentences false true s'
        else cons_head c (split_sentences false false s')
      else cons_head c (split_sentences (Char.is_terminator c) false s')
  end.

(** The value of [summary] before the length test: the first three sentences,
    joined. *)
Definition three_sentences (text : str) : str :=
  let sentences := split_sentences false false (strip text) in
  join (lit " ") (slice_to sentences 3).

Definition summarize_text (text : str) (max_chars : Z) : str :=
  match text with
  | [] => []
  | _ =>
      let summary := three_sentences text in
      if (max_chars <? Z.of_nat (length summary))%Z
      then rstrip (slice_to summary max_chars) ++ lit "..."
      else summary
  end.

(** The default of the parameter [max_chars]. *)
Definition default_max_chars : Z := 300.

(** ** Articles *)

(** An article dictionary.  [parse_entry] builds one without ["sent_at"]; the
    scheduler adds it when it appends the article to the history. *)
Record Article := MkArticle {
  art_id : str;
  art_title : str;
  art_summary : str;
  art_link : str;
  art_published : str;
  art_sent_at : option str
}.

(** ** [list.sort(key=..., reverse=True)] *)

Section Sort.
Context {A K : Type} (ltb : K -> K -> bool) (key : A -> K).

(** Puts [x] after the elements whose key is strictly greater and before
    all the others. *)
Fixpoint insert_desc (x : A) (l : list A) : list A :=
  match l with
  | [] => [x]
  | y :: l' => if ltb (key x) (key y) then y :: insert_desc x l' else x :: l
  end.

(** The descending stable sort: [x], which comes before [l] in the input,
    is put before the elements of [l] that have an equal key. *)
Definition sort_reverse (l : list A) : list A := foldr insert_desc [] l.

(** [x] may come before [y] in a descending list. *)
Definition key_ge (x y : A) : Prop := ltb (key x) (key y) = false.

(** The key of [x] is as large as [k] and as small. *)
Definition key_is (k : K) (x : A) : Prop :=
  ltb (key x) k = false /\ ltb k (key x) = false.

#[global] Instance key_is_dec k x : Decision (key_is k x).
Proof. unfold key_is. apply _. Defined.
End Sort.

(** ** Context selector and summary composer: [build_rag_summary] *)

Definition new_text (article : Article) : str :=
  art_title article ++ lit " " ++ art_summary article.

Definition hist_text (h : Article) : str :=
  art_title h ++ lit " " ++ art_summary h.

(** The loop that fills [scores]. *)
Definition scores (article : Article) (context_articles : list Article)
  : list (Q * Article) :=
  map (fun h => (simple_similarity (new_text article) (hist_text h), h))
      context_articles.

(** What it is to be the ranking of a list of scored records: the same pairs,
    by descending score, the pairs of one score in the order of the input. *)
Definition is_ranking {A} (input r : list (Q * A)) : Prop :=
  r ≡ₚ input
  /\ StronglySorted (fun p q => (fst q <= fst p)%Q) r
  /\ (forall s, filter (fun p => (fst p == s)%Q) r
               = filter (fun p => (fst p == s)%Q) input).

(** [scores.sort(key=lambda x: x[0], reverse=True)]. *)
Definition ranked (article : Article) (context_articles : list Article)
  : list (Q * Article) :=
  sort_reverse float_ltb fst (scores article context_articles).

(** [[h for sim, h in scores[:top_k] if sim > 0]]. *)
Definition select_context (article : Article) (context_articles : list Article)
    (top_k : Z) : list Article :=
  map snd (filter (fun p => float_ltb 0 (fst p) = true)
                  (slice_to (ranked article context_articles) top_k)).

(** [[c.get("title", "") for c in ctx if c.get("title")]]. *)
Definition rel_titles (ctx : list Article) : list str :=
  filter (fun t => t <> []) (map art_title ctx).

(** ["Related to: " + "; ".join(rel_titles[:2])]. *)
Definition extra (rel_titles : list str) : str :=
  lit "Related to: " ++ join (lit "; ") (slice_to rel_titles 2).

(** The rest of [build_rag_summary], from [base_summary] on. *)
Definition compose (article : Article) (ctx : list Article) : str :=
  let base_summary := summarize_text (art_summary article) default_max_chars in
  match ctx with
  | [] => base_summary
  | _ =>
      match rel_titles ctx with
      | [] => base_summary
      | _ =>
          if (Z.of_nat (length base_summary)
              + Z.of_nat (length (extra (rel_titles ctx))) + 3 <? 350)%Z
          then base_summary ++ lit " | " ++ extra (rel_titles ctx)
          else base_summary
      end
  end.

(** [rss_to_telegram.py]: the three best articles are the context. *)
Definition build_rag_summary (article : Article)
    (context_articles : list Article) : str :=
  compose article (select_context article context_articles 3).

(** [Python_code.py]: the same function with a parameter [top_k]. *)
Module Display.
Definition default_top_k : Z := 3.

Definition build_rag_summary (article : Article)
    (history : list Article) (top_k : Z) : str :=
  compose article (select_context article history top_k).
End Display.

(** ** Feed entries *)

(** An entry of [feedparser]: every attribute may be missing. *)
Record Entry := MkEntry {
  entry_id : option str;
  entry_link : option str;
  entry_title : option str;
  entry_summary : option str;
  entry_description : option str;
  entry_published : option str
}.

(** [getattr(entry, name, "")]. *)
Definition getattr (field : option str) : str := default [] field.

(** [x or y] when [x] is [None] or a string. *)
Definition or_else (x : option str) (y : str) : str :=
  match x with
  | Some (c :: s) => c :: s
  | _ => y
  end.

Definition extract_entry_id (entry : Entry) : str :=
  or_else (entry_id entry)
    (or_else (entry_link entry)
       (getattr (entry_title entry) ++ getattr (entry_published entry))).

Definition parse_entry (entry : Entry) : Article :=
  {| art_id := extract_entry_id entry;
     art_title := getattr (entry_title entry);
     art_link := getattr (entry_link entry);
     art_summary := or_else (entry_summary entry) (getattr (entry_description entry));
     art_published := getattr (entry_published entry);
     art_sent_at := None |}.

(** ** The world of a run *)

(** The state dictionary.  A key of the file may be missing. *)
Record State := MkState {
  st_seen_ids : option (list str);
  st_articles : option (list Article)
}.

(** What is at the path [STATE_FILE], when something is: a file that cannot
    be opened, or a file with its content, which is [None] when it is not a
    JSON document. *)
Inductive File :=
| Unreadable
| Readable (content : option State).

(** What a run does to the outside, in order. *)
Inductive event :=
| Print (line : str)
| Post (text : str)
| Dump (state : State).

Record World := MkWorld {
  disk : option File;
  trace : list event
}.

(** The response of [requests.post]. *)
Record Response := MkResponse {
  resp_ok : bool;
  resp_text : str
}.

(** The globals of the module and the collaborators.  The feed source
    returns the entries of a feed and the sink a response, neither raises;
    the sink and the clock may answer by everything that has happened so
    far. *)
Record Env := MkEnv {
  RSS_FEEDS : list str;
  MAX_TELEGRAM_MESSAGES_PER_RUN : Z;
  feedparser_parse : str -> list Entry;
  requests_post : list event -> str -> Response;
  utcnow_isoformat : list event -> str
}.

Inductive exn := OSError | JSONDecodeError.

Inductive result (A : Type) :=
| Ok (a : A)
| Raise (e : exn).
Arguments Ok {A} a.
Arguments Raise {A} e.

(** Computations that change the world and may raise. *)
Definition M (A : Type) : Type := World -> result A * World.

#[global] Instance M_ret : MRet M := fun A a w => (Ok a, w).

#[global] Instance M_bind : MBind M := fun A B f m w =>
  match m w with
  | (Ok a, w') => f a w'
  | (Raise e, w') => (Raise e, w')
  end.

Definition raise {A} (e : exn) : M A := fun w => (Raise e, w).

Definition emit (e : event) : M unit := fun w =>
  (Ok tt, {| disk := disk w; trace := trace w ++ [e] |}).

Definition nl : str := [ascii_of_N 10].

(** [print(a, b, ...)]: the arguments with a space between them. *)
Definition print (args : list str) : M unit := emit (Print (join (lit " ") args)).

(** [str(n)] for an [int]. *)
Definition str_of_int (n : Z) : str :=
  lit (NilZero.string_of_int (Z.to_int n)).

(** *** State I/O *)

Definition STATE_FILE : str := lit "rss_state.json".

Definition os_path_exists : M bool := fun w => (Ok (bool_decide (is_Some (disk w))), w).

Definition open_read : M (option State) := fun w =>
  match disk w with
  | Some (Readable content) => (Ok content, w)
  | _ => (Raise OSError, w)
  end.

Definition json_load (content : option State) : M State :=
  match content with
  | Some state => mret state
  | None => raise JSONDecodeError
  end.

Definition load_state : M State :=
  exists_ ← os_path_exists;
  if (exists_ : bool) then
    f ← open_read;
    json_load f
  else mret {| st_seen_ids := Some []; st_articles := Some [] |}.

(** The state is written over what is at the path; writing does not fail. *)
Definition save_state (state : State) : M unit := fun w =>
  (Ok tt, {| disk := Some (Readable (Some state)); trace := trace w ++ [Dump state] |}).

(** *** Collaborators *)

(** [requests.post(url, data=payload)] and [datetime.utcnow().isoformat()]. *)
Definition post (E : Env) (text : str) : M Response := fun w =>
  (Ok (requests_post E (trace w) text),
   {| disk := disk w; trace := trace w ++ [Post text] |}).

Definition utcnow (E : Env) : M str := fun w =>
  (Ok (utcnow_isoformat E (trace w)), w).

Definition send_telegram_message (E : Env) (text : str) : M unit :=
  resp ← post E text;
  if resp_ok resp then mret tt
  else print [lit "Failed to send message:"; resp_text resp].

Fixpoint fetch_feeds (E : Env) (urls : list str) : M (list Article) :=
  match urls with
  | [] => mret []
  | url :: urls' =>
      print [lit "Fetching:"; url];;
      let feed := feedparser_parse E url in
      rest ← fetch_feeds E urls';
      mret (map parse_entry feed ++ rest)
  end.

Definition fetch_new_articles (E : Env) : M (list Article) :=
  fetch_feeds E (RSS_FEEDS E).

(** *** The scheduler *)

(** The variables the delivery loop changes.  [list(seen_ids)], which the
    run writes at its end, lists the set in some order: [elements]. *)
Record Locals := MkLocals {
  seen_ids : gset str;
  history : list Article;
  count_sent : Z
}.

Definition parse_pub (a : Article) : str := art_published a.

Definition message_of (title rag_summary link : str) : str :=
  let msg_lines :=
    (if bool_decide (title = []) then [] else [lit "Title: " ++ title])
    ++ (if bool_decide (rag_summary = []) then [] else [lit "Summary: " ++ rag_summary])
    ++ (if bool_decide (link = []) then [] else [lit "Link: " ++ link]) in
  join (nl ++ nl) msg_lines.

(** The body of the loop for one article. *)
Definition deliver_one (E : Env) (article : Article) (L : Locals) : M Locals :=
  let rag_summary := build_rag_summary article (history L) in
  let title := strip (art_title article) in
  let link := strip (art_link article) in
  let message := message_of title rag_summary link in
  print [lit "Sending:" ++ nl; message; nl ++ lit "---"];;
  send_telegram_message E message;;
  now ← utcnow E;
  mret {| seen_ids := seen_ids L ∪ {[art_id article]};
          history := history L ++
            [{| art_id := art_id article;
                art_title := title;
                art_summary := rag_summary;
                art_link := link;
                art_published := art_published article;
                art_sent_at := Some now |}];
          count_sent := count_sent L + 1 |}.

(** [for article in unseen: ...], with its [break]. *)
Fixpoint deliver (E : Env) (unseen : list Article) (L : Locals) : M Locals :=
  match unseen with
  | [] => mret L
  | article :: rest =>
      if (MAX_TELEGRAM_MESSAGES_PER_RUN E <=? count_sent L)%Z then mret L
      else
        L' ← deliver_one E article L;
        deliver E rest L'
  end.

Definition run_rss_to_telegram (E : Env) : M unit :=
  state ← load_state;
  let seen_ids0 : gset str := list_to_set (default [] (st_seen_ids state)) in
  let history0 := default [] (st_articles state) in
  all_new ← fetch_new_articles E;
  let unseen := filter (fun a => art_id a ∉ seen_ids0) all_new in
  match unseen with
  | [] => print [lit "No new articles."]
  | _ =>
      let unseen := sort_reverse str_ltb parse_pub unseen in
      L ← deliver E unseen
            {| seen_ids := seen_ids0; history := history0; count_sent := 0 |};
      save_state {| st_seen_ids := Some (elements (seen_ids L));
                    st_articles := Some (history L) |};;
      print [lit "Done. Sent " ++ str_of_int (count_sent L) ++ lit " messages."]
  end.

(** ** What a run does, as functions of its inputs *)

(** The texts a trace posts to the sink and the states it writes. *)
Definition posts (t : list event) : list str :=
  omap (fun e => match e with Post m => Some m | _ => None end) t.

Definition dumps (t : list event) : list State :=
  omap (fun e => match e with Dump st => Some st | _ => None end) t.

(** The message of an article, given the history it is compared with. *)
Definition message_for (article : Article) (history : list Article) : str :=
  message_of (strip (art_title article))
             (build_rag_summary article history)
             (strip (art_link article)).

(** The record the loop appends for an article. *)
Definition record_of (article : Article) (history : list Article) (now : str)
  : Article :=
  {| art_id := art_id article;
     art_title := strip (art_title article);
     art_summary := build_rag_summary article history;
     art_link := strip (art_link article);
     art_published := art_published article;
     art_sent_at := Some now |}.

(** The line printed before a message is posted, the response of the sink to
    the message, and the line printed when the sink reports a failure. *)
Definition sending_line (message : str) : event :=
  Print (join (lit " ") [lit "Sending:" ++ nl; message; nl ++ lit "---"]).

Definition sink_response (E : Env) (article : Article) (L : Locals) (w : World)
  : Response :=
  let message := message_for article (history L) in
  requests_post E (trace w ++ [sending_line message]) message.

Definition failure_line (resp : Response) : event :=
  Print (join (lit " ") [lit "Failed to send message:"; resp_text resp]).

(** What one round of the loop prints and posts. *)
Definition round_events (E : Env) (article : Article) (L : Locals) (w : World)
  : list event :=
  let message := message_for article (history L) in
  let resp := sink_response E article L w in
  [sending_line message; Post message]
  ++ (if resp_ok resp then [] else [failure_line resp]).

(** The articles of all feeds, in the order of [RSS_FEEDS]. *)
Definition fetched (E : Env) : list Article :=
  flat_map (fun url => map parse_entry (feedparser_parse E url)) (RSS_FEEDS E).

(** The ledger of a state dictionary. *)
Definition seen_of (st : State) : gset str :=
  list_to_set (default [] (st_seen_ids st)).

Definition history_of (st : State) : list Article :=
  default [] (st_articles st).

(** The unseen articles, the order they are handled in, and the ones the bound
    leaves room for. *)
Definition unseen_of (E : Env) (st : State) : list Article :=
  filter (fun a => art_id a ∉ seen_of st) (fetched E).

Definition delivery_order (E : Env) (st : State) : list Article :=
  sort_reverse str_ltb parse_pub (unseen_of E st).

Definition delivered (E : Env) (st : State) : list Article :=
  take (Z.to_nat (MAX_TELEGRAM_MESSAGES_PER_RUN E)) (delivery_order E st).

(** ** Examples of feeds and collaborators *)

Definition entry (id title summary published : string) : Entry :=
  {| entry_id := Some (lit id);
     entry_link := None;
     entry_title := Some (lit title);
     entry_summary := Some (lit summary);
     entry_description := None;
     entry_published := Some (lit published) |}.

(** One feed with the given entries, a bound, and a sink that always accepts
    or always refuses. *)
Definition example_env (entries : list Entry) (max : Z) (sink_ok : bool) : Env :=
  {| RSS_FEEDS := [lit "https://example.org/rss"];
     MAX_TELEGRAM_MESSAGES_PER_RUN := max;
     feedparser_parse := fun _ => entries;
     requests_post := fun _ _ => MkResponse sink_ok (lit "Bad Request");
     utcnow_isoformat := fun _ => lit "2024-01-02T00:00:00" |}.

Definition cats : Entry := entry "1" "A" "Cats are great. They purr." "2024-01-01".

(** No state file, nothing done yet. *)
Definition fresh : World := {| disk := None; trace := [] |}.

Definition dogs : Entry := entry "2" "B" "Dogs bark." "2024-01-03".
Definition birds : Entry := entry "3" "C" "Birds sing." "2024-01-02".

(** Two feeds that share an entry, and a bound of two messages. *)
Definition overlapping_env : Env :=
  {| RSS_FEEDS := [lit "https://example.org/a"; lit "https://example.org/b"];
     MAX_TELEGRAM_MESSAGES_PER_RUN := 2;
     feedparser_parse := fun url =>
       if bool_decide (url = lit "https://example.org/a") then [dogs; cats] else [cats];
     requests_post := fun _ _ => MkResponse true [];
     utcnow_isoformat := fun _ => lit "2024-01-02T00:00:00" |}.

(** A state file left by a run that delivered [cats]. *)
Definition after_cats : World :=
  {| disk := Some (Readable (Some
       {| st_seen_ids := Some [lit "1"];
          st_articles := Some
            [MkArticle (lit "1") (lit "A") (lit "Cats are great. They purr.") []
                       (lit "2024-01-01") (Some (lit "2024-01-01T12:00:00"))] |}));
     trace := [] |}.


(** ** The list of feeds *)

(** [s.split()]: the maximal runs of characters that are not white space. *)
Fixpoint split_fields (cur : str) (s : str) : list str :=
  match s with
  | [] => flush cur
  | c :: s' =>
      if Char.is_space c then flush cur ++ split_fields [] s'
      else split_fields (c :: cur) s'
  end.

Definition DEFAULT_RSS_FEEDS : list str :=
  [lit "https://rss.nytimes.com/services/xml/rss/nyt/World.xml";
   lit "https://feeds.bbci.co.uk/news/world/rss.xml"].

(** [os.environ.get("RSS_FEEDS", "").split() or [...]], by the value of the
    variable when it is set. *)
Definition rss_feeds_of_environ (value : option str) : list str :=
  match split_fields [] (default [] value) with
  | [] => DEFAULT_RSS_FEEDS
  | feeds => feeds
  end.

(** What a feed address is: not empty, without white space. *)
Definition is_field (u : str) : Prop :=
  u <> [] /\ Forall (fun c => Char.is_space c = false) u.

(** ** The display front-end: the loop of [Python_code.py] *)

Module Front.

(** [parse_entry] of [Python_code.py]: the dictionary has no id. *)
Definition parse_entry (entry : Entry) : Article :=
  {| art_id := [];
     art_title := getattr (entry_title entry);
     art_link := getattr (entry_link entry);
     art_summary := or_else (entry_summary entry) (getattr (entry_description entry));
     art_published := getattr (entry_published entry);
     art_sent_at := None |}.

(** The dictionary appended for an article. *)
Definition summarized (art : Article) (history : list Article) : Article :=
  {| art_id := [];
     art_title := art_title art;
     art_summary := Display.build_rag_summary art history Display.default_top_k;
     art_link := art_link art;
     art_published := art_published art;
     art_sent_at := None |}.

(** [for art in all_articles: ...], from the history so far. *)
Fixpoint summarize_all (history : list Article) (all_articles : list Article)
  : list Article :=
  match all_articles with
  | [] => history
  | art :: rest => summarize_all (history ++ [summarized art history]) rest
  end.

End Front.

(** ** Words and chains of records *)

(** What a match of [\w+] is: not empty, made of word characters. *)
Definition is_match (t : str) : Prop := t <> [] /\ Forall (fun c => Char.is_word c = true) t.

(** [recs] are the records of the articles [d], each one built against
    [history] followed by the records before it. *)
Fixpoint chained (history : list Article) (d recs : list Article) : Prop :=
  match d, recs with
  | [], [] => True
  | a :: d', r :: recs' =>
      (exists now, r = record_of a history now) /\ chained (history ++ [r]) d' recs'
  | _, _ => False
  end.

(** * Properties *)

(** ** True division *)

Lemma round_half_even_nonneg n d :
  (0 <= n)%Z -> (0 < d)%Z -> (0 <= round_half_even n d)%Z.
Proof.
  intros Hn Hd. unfold round_half_even.
  assert (0 <= n / d)%Z by (apply Z.div_pos; lia).
  destruct (2 * (n mod d) ?= d)%Z; [destruct (Z.even _)|..]; lia.
Qed.

Lemma round_half_even_le n d K :
  (0 < d)%Z -> (n <= K * d)%Z -> (round_half_even n d <= K)%Z.
Proof.
  intros Hd Hn. unfold round_half_even.
  pose proof (Z.div_mod n d ltac:(lia)) as Hdm.
  pose proof (Z.mod_pos_bound n d Hd) as Hr.
  assert (n / d <= K)%Z as Hq by (apply Z.div_le_upper_bound; lia).
  destruct (Z.eq_dec (n / d)%Z K) as [Heq|Hne].
  - assert ((2 * (n mod d) ?= d)%Z = Lt) as ->; [|lia].
    apply Z.compare_lt_iff. nia.
  - destruct (2 * (n mod d) ?= d)%Z; [destruct (Z.even _)|..]; lia.
Qed.

(** The exponent of a quotient below one is at least 52. *)
Lemma py_truediv_small a b :
  (0 < a)%Z -> (a <= b)%Z ->
  exists e, (52 <= e)%Z /\
    py_truediv a b = Qmake (round_half_even (a * 2 ^ e) b) (Z.to_pos (2 ^ e)).
Proof.
  intros Ha Hab. unfold py_truediv.
  replace (a =? 0)%Z with false by (symmetry; apply Z.eqb_neq; lia).
  pose proof (Z.log2_le_mono a b Hab) as Hk.
  set (k := (Z.log2 b - Z.log2 a)%Z) in *.
  set (e0 := if (_ <=? _)%Z then (52 + k)%Z else (53 + k)%Z).
  assert (52 <= e0)%Z as He0 by (unfold e0; destruct (_ <=? _)%Z; lia).
  exists (Z.min e0 1074). split; [lia|].
  rewrite (Z.max_l (Z.min e0 1074) 0) by lia.
  rewrite (Z.max_r (- Z.min e0 1074) 0) by lia.
  cbn [Z.pow]. rewrite !Z.mul_1_r. reflexivity.
Qed.

Lemma py_truediv_nonneg a b :
  (0 <= a)%Z -> (a <= b)%Z -> (0 <= py_truediv a b)%Q.
Proof.
  intros Ha Hab. destruct (Z.eq_dec a 0%Z) as [->|Hne].
  - unfold py_truediv; cbn. apply Qle_refl.
  - destruct (py_truediv_small a b) as (e & He & ->); [lia..|].
    unfold Qle; cbn. rewrite Z.mul_1_r.
    apply round_half_even_nonneg; [|lia].
    apply Z.mul_nonneg_nonneg; [lia|]. apply Z.pow_nonneg; lia.
Qed.

(** A quotient of at most one half is rounded to at most one half. *)
Lemma py_truediv_le_half a b :
  (0 <= a)%Z -> (2 * a <= b)%Z -> (py_truediv a b <= 1 # 2)%Q.
Proof.
  intros Ha Hab. destruct (Z.eq_dec a 0%Z) as [->|Hne].
  - unfold py_truediv; cbn. unfold Qle; cbn; lia.
  - destruct (py_truediv_small a b) as (e & He & ->); [lia..|].
    assert (0 < 2 ^ (e - 1))%Z as Hp by (apply Z.pow_pos_nonneg; lia).
    assert (2 ^ e = 2 * 2 ^ (e - 1))%Z as Hpow.
    { rewrite <- Z.pow_succ_r by lia. f_equal; lia. }
    unfold Qle; cbn [Qnum Qden].
    rewrite Z2Pos.id by lia.
    cut (round_half_even (a * 2 ^ e) b <= 2 ^ (e - 1))%Z; [lia|].
    apply round_half_even_le; [lia|]. rewrite Hpow. nia.
Qed.

(** ** Similarity scorer *)

Example text_to_tokens_example :
  elements (text_to_tokens (lit "Cats, cats & DOGS_1!")) = [lit "cats"; lit "dogs_1"].
Proof. vm_compute. reflexivity. Qed.

Example simple_similarity_example :
  simple_similarity (lit "Cats are great") (lit "cats are wonderful pets")
  = py_truediv 2 7.
Proof. vm_compute. reflexivity. Qed.

(** Twice the common tokens are at most the tokens of both sides. *)
Lemma inter_size_le (ta tb : gset str) :
  (2 * Z.of_nat (size (ta ∩ tb)) <= Z.of_nat (size ta + size tb))%Z.
Proof.
  pose proof (subseteq_size _ _ (intersection_subseteq_l ta tb)).
  pose proof (subseteq_size _ _ (intersection_subseteq_r ta tb)).
  lia.
Qed.

Lemma simple_similarity_range (a b : str) :
  (0 <= simple_similarity a b)%Q /\ (simple_similarity a b <= 1 # 2)%Q.
Proof.
  unfold simple_similarity.
  destruct (bool_decide _ || bool_decide _).
  - split; unfold Qle; cbn; lia.
  - pose proof (inter_size_le (text_to_tokens a) (text_to_tokens b)).
    split; [apply py_truediv_nonneg | apply py_truediv_le_half]; lia.
Qed.

(** C4: the score of two texts does not depend on their order, lies between
    0 and 1, and is exactly 0 when one of the texts has no token. *)
Theorem simple_similarity_symmetric_bounded (a b : str) :
  simple_similarity a b = simple_similarity b a
  /\ (0 <= simple_similarity a b)%Q /\ (simple_similarity a b <= 1)%Q
  /\ (text_to_tokens a = ∅ \/ text_to_tokens b = ∅ ->
      simple_similarity a b = 0%Q).
Proof.
  split; [|split; [|split]].
  - unfold simple_similarity.
    rewrite (orb_comm (bool_decide (text_to_tokens a = ∅))).
    rewrite (comm_L (∩) (text_to_tokens a)).
    rewrite (Nat.add_comm (size (text_to_tokens a))). reflexivity.
  - apply simple_similarity_range.
  - eapply Qle_trans; [apply simple_similarity_range|].
    unfold Qle; cbn; lia.
  - unfold simple_similarity. intros [H|H].
    + rewrite (bool_decide_eq_true_2 _ H). reflexivity.
    + rewrite (bool_decide_eq_true_2 _ H), orb_true_r. reflexivity.
Qed.

Lemma simple_similarity_symmetric_bounded_witness :
  simple_similarity (lit "?! ...") (lit "Cats are great") = 0%Q.
Proof.
  apply (simple_similarity_symmetric_bounded (lit "?! ...") (lit "Cats are great")).
  left. vm_compute. reflexivity.
Defined.

(** C10: the score never exceeds one half, since the common tokens are at
    most half of the tokens of both sides; one half is reached by two texts
    with the same tokens. *)
Theorem simple_similarity_le_half (a b : str) :
  (simple_similarity a b <= 1 # 2)%Q
  /\ (text_to_tokens a = text_to_tokens b -> text_to_tokens a <> ∅ ->
      (simple_similarity a b == 1 # 2)%Q).
Proof.
  split; [apply simple_similarity_range|].
  intros Heq Hne. unfold simple_similarity. rewrite <- Heq.
  rewrite bool_decide_eq_false_2 by assumption. cbn [orb].
  rewrite (idemp_L (∩) (text_to_tokens a)).
  assert (0 < size (text_to_tokens a)) as Hpos.
  { destruct (size (text_to_tokens a)) eqn:Hs; [|lia].
    apply size_empty_inv, leibniz_equiv in Hs. contradiction. }
  set (n := size (text_to_tokens a)) in *.
  destruct (py_truediv_small (Z.of_nat n) (Z.of_nat (n + n))) as (e & He & ->); [lia..|].
  assert (0 < 2 ^ (e - 1))%Z as Hp by (apply Z.pow_pos_nonneg; lia).
  assert (2 ^ e = 2 * 2 ^ (e - 1))%Z as Hpow.
  { rewrite <- Z.pow_succ_r by lia. f_equal; lia. }
  assert (round_half_even (Z.of_nat n * 2 ^ e) (Z.of_nat (n + n)) = 2 ^ (e - 1))%Z as ->.
  { unfold round_half_even.
    replace (Z.of_nat n * 2 ^ e)%Z with (2 ^ (e - 1) * Z.of_nat (n + n))%Z by (rewrite Hpow; lia).
    rewrite Z.div_mul, Z.mod_mul by lia.
    assert ((2 * 0 ?= Z.of_nat (n + n))%Z = Lt) as ->; [|reflexivity].
    apply Z.compare_lt_iff. lia. }
  unfold Qeq; cbn [Qnum Qden]. rewrite Z2Pos.id by lia. lia.
Qed.

Lemma simple_similarity_le_half_witness :
  (simple_similarity (lit "Dogs bark") (lit "bark, dogs!") == 1 # 2)%Q.
Proof.
  apply (simple_similarity_le_half (lit "Dogs bark") (lit "bark, dogs!")).
  - vm_compute. reflexivity.
  - vm_compute. discriminate.
Defined.

(** ** Summarizer *)

Example split_sentences_example :
  split_sentences false false (lit "a.  b! c?d e.   f. g")
  = [lit "a."; lit "b!"; lit "c?d e."; lit "f."; lit "g"].
Proof. reflexivity. Qed.

Example summarize_text_example :
  summarize_text (lit "  Cats are great. They purr.  ") default_max_chars
  = lit "Cats are great. They purr.".
Proof. reflexivity. Qed.

(** A negative bound counts from the end of the sentences, and the summary is
    longer than the bound plus three. *)
Example summarize_text_negative_bound :
  summarize_text (lit "abcd") (-1) = lit "abc...".
Proof. reflexivity. Qed.

Lemma lstrip_length (s : str) : length (lstrip s) <= length s.
Proof. induction s as [|c s IH]; cbn; [lia|]. destruct (Char.is_space c); cbn; lia. Qed.

Lemma rstrip_length (s : str) : length (rstrip s) <= length s.
Proof.
  unfold rstrip. rewrite length_rev.
  etransitivity; [apply lstrip_length|]. rewrite length_rev. lia.
Qed.

(** Nothing is stripped from a string that ends with another character. *)
Lemma rstrip_snoc (s : str) (c : ascii) :
  Char.is_space c = false -> rstrip (s ++ [c]) = s ++ [c].
Proof.
  intros Hc. unfold rstrip. rewrite rev_app_distr. cbn. rewrite Hc.
  change (c :: rev s) with (rev [c] ++ rev s).
  rewrite <- rev_app_distr, rev_involutive. reflexivity.
Qed.

Lemma slice_to_length {A} (xs : list A) (n : Z) :
  (0 <= n)%Z -> length (slice_to xs n) = Nat.min (Z.to_nat n) (length xs).
Proof.
  intros Hn. unfold slice_to.
  replace (0 <=? n)%Z with true by (symmetry; apply Z.leb_le; lia).
  apply length_take.
Qed.

Lemma summarize_text_truncated (t : str) (N : Z) :
  (0 <= N)%Z ->
  (N < Z.of_nat (length (three_sentences t)))%Z ->
  summarize_text t N = rstrip (slice_to (three_sentences t) N) ++ lit "...".
Proof.
  intros HN Hlt. unfold summarize_text. destruct t as [|c t].
  - change (three_sentences []) with (@nil ascii) in Hlt. cbn in Hlt. lia.
  - replace (N <? _)%Z with true by (symmetry; apply Z.ltb_lt; lia).
    reflexivity.
Qed.

(** C3, as the code has it: for a bound [N >= 0] the summary has at most
    [N + 3] characters; when the three sentences are longer than [N], it is
    their first [N] characters without the white space at their end, followed
    by the ellipsis: at most [N] characters before the ellipsis, and exactly
    [N] when the last of these [N] characters is not white space. *)
Theorem summarize_text_bound (t : str) (N : Z) :
  (0 <= N)%Z ->
  (Z.of_nat (length (summarize_text t N)) <= N + 3)%Z
  /\ ((N < Z.of_nat (length (three_sentences t)))%Z ->
      let body := rstrip (slice_to (three_sentences t) N) in
      summarize_text t N = body ++ lit "..."
      /\ (Z.of_nat (length body) <= N)%Z
      /\ (forall c, last (slice_to (three_sentences t) N) = Some c ->
                    Char.is_space c = false -> Z.of_nat (length body) = N)).
Proof.
  intros HN. split.
  - unfold summarize_text. destruct t as [|c t]; [cbn; lia|].
    destruct (N <? _)%Z eqn:Hlt.
    + rewrite length_app.
      pose proof (rstrip_length (slice_to (three_sentences (c :: t)) N)) as Hr.
      rewrite slice_to_length in Hr by assumption.
      change (length (lit "...")) with 3. lia.
    + apply Z.ltb_ge in Hlt. lia.
  - intros Hlt body. split; [apply summarize_text_truncated; assumption|].
    pose proof (rstrip_length (slice_to (three_sentences t) N)) as Hr.
    pose proof (slice_to_length (three_sentences t) N HN) as Hs.
    split; [unfold body; lia|].
    intros c Hlast Hc. unfold body.
    destruct (slice_to (three_sentences t) N) as [|x xs] eqn:Hsl using rev_ind;
      [discriminate|].
    rewrite last_snoc in Hlast. injection Hlast as ->.
    rewrite rstrip_snoc by assumption. lia.
Qed.

Lemma summarize_text_bound_witness :
  (Z.of_nat (length (summarize_text (lit "ab cd") 3)) <= 3 + 3)%Z
  /\ summarize_text (lit "ab cd") 3 = lit "ab...".
Proof.
  assert (0 <= 3)%Z as H by lia.
  destruct (summarize_text_bound (lit "ab cd") 3 H) as [Hlen Htrunc].
  split; [exact Hlen|].
  apply Htrunc. vm_compute. reflexivity.
Defined.

(** C3, the counterexample: the three sentences ["ab cd"] are longer than 3,
    and what is left of them before the ellipsis is ["ab"], shorter than 3. *)
Lemma summarize_text_shorter_than_max :
  ~ (forall (t : str) (N : Z), (0 <= N)%Z ->
       (N < Z.of_nat (length (three_sentences t)))%Z ->
       forall body, summarize_text t N = body ++ lit "..." ->
                    (N <= Z.of_nat (length body))%Z).
Proof.
  intros H.
  assert (3 < Z.of_nat (length (three_sentences (lit "ab cd"))))%Z as Hlong
    by (vm_compute; reflexivity).
  assert (summarize_text (lit "ab cd") 3 = lit "ab" ++ lit "...") as Hres
    by (vm_compute; reflexivity).
  specialize (H (lit "ab cd") 3%Z ltac:(lia) Hlong (lit "ab") Hres).
  vm_compute in H. apply H. reflexivity.
Qed.

(** ** Summary composer *)

Example build_rag_summary_example :
  build_rag_summary
    (MkArticle (lit "2") (lit "Cats are wonderful pets")
               (lit "Cats are great. They purr a lot.") [] [] None)
    [MkArticle (lit "1") (lit "Cats are great") (lit "Cats purr.") [] [] None;
     MkArticle (lit "0") (lit "Dogs") (lit "Dogs bark.") [] [] None]
  = lit "Cats are great. They purr a lot. | Related to: Cats are great".
Proof. vm_compute. reflexivity. Qed.

(** C6: the composed summary has at most [len(base) + 353] characters, and is
    [base] itself when there is no context, when no article of the context
    has a title, and when the budget check fails. *)
Theorem compose_bound (article : Article) (ctx : list Article) :
  let base := summarize_text (art_summary article) default_max_chars in
  length (compose article ctx) <= length base + 353
  /\ (ctx = [] -> compose article ctx = base)
  /\ (rel_titles ctx = [] -> compose article ctx = base)
  /\ (~ (Z.of_nat (length base) + Z.of_nat (length (extra (rel_titles ctx))) + 3
          < 350)%Z ->
      compose article ctx = base).
Proof.
  intros base. unfold compose. fold base.
  split; [|split; [|split]].
  - destruct ctx; [lia|]. destruct (rel_titles _); [lia|].
    destruct (_ <? 350)%Z eqn:Hlt; [|lia].
    apply Z.ltb_lt in Hlt. rewrite !length_app.
    change (length (lit " | ")) with 3. lia.
  - intros ->. reflexivity.
  - intros ->. destruct ctx; reflexivity.
  - intros Hfail. destruct ctx; [reflexivity|].
    destruct (rel_titles _); [reflexivity|].
    destruct (_ <? 350)%Z eqn:Hlt; [|reflexivity].
    apply Z.ltb_lt in Hlt. contradiction.
Qed.

Lemma compose_bound_witness :
  let article := MkArticle (lit "2") (lit "B") (lit "Dogs bark.") [] [] None in
  let long_title := repeat "x"%char 400 in
  compose article [] = lit "Dogs bark."
  /\ compose article [MkArticle (lit "1") [] (lit "Dogs.") [] [] None]
     = lit "Dogs bark."
  /\ compose article [MkArticle (lit "1") long_title (lit "Dogs.") [] [] None]
     = lit "Dogs bark.".
Proof.
  intros article long_title. split; [|split].
  - destruct (compose_bound article []) as (_ & Hempty & _).
    apply Hempty. reflexivity.
  - destruct (compose_bound article [MkArticle (lit "1") [] (lit "Dogs.") [] [] None])
      as (_ & _ & Hnotitle & _).
    apply Hnotitle. reflexivity.
  - destruct (compose_bound article
                [MkArticle (lit "1") long_title (lit "Dogs.") [] [] None])
      as (_ & _ & _ & Hbudget).
    apply Hbudget. vm_compute. discriminate.
Defined.

(** ** The descending stable sort *)

Section SortFacts.
Context {A K : Type} (ltb : K -> K -> bool) (key : A -> K).

(** [ltb] is a strict weak order. *)
Hypothesis ltb_irrefl : forall k, ltb k k = false.
Hypothesis ltb_trans :
  forall k1 k2 k3, ltb k1 k2 = true -> ltb k2 k3 = true -> ltb k1 k3 = true.
Hypothesis ltb_negtrans :
  forall k1 k2 k3, ltb k1 k2 = false -> ltb k2 k3 = false -> ltb k1 k3 = false.

Local Abbreviation insert_desc := (insert_desc ltb key).
Local Abbreviation sort_reverse := (sort_reverse ltb key).
Local Abbreviation key_ge := (key_ge ltb key).
Local Abbreviation key_is := (key_is ltb key).

Lemma sort_reverse_cons x l :
  sort_reverse (x :: l) = insert_desc x (sort_reverse l).
Proof. reflexivity. Qed.

Lemma ltb_asym k1 k2 : ltb k1 k2 = true -> ltb k2 k1 = false.
Proof.
  intros H12. destruct (ltb k2 k1) eqn:H21; [|reflexivity].
  rewrite <- (ltb_irrefl k1). symmetry. eapply ltb_trans; eassumption.
Qed.

Lemma insert_desc_perm x l : insert_desc x l ≡ₚ x :: l.
Proof.
  induction l as [|y l IH]; cbn; [reflexivity|].
  destruct (ltb (key x) (key y)); [|reflexivity].
  rewrite IH. apply Permutation_swap.
Qed.

Lemma sort_reverse_perm l : sort_reverse l ≡ₚ l.
Proof.
  induction l as [|x l IH]; [reflexivity|].
  rewrite sort_reverse_cons, insert_desc_perm, IH. reflexivity.
Qed.

Lemma insert_desc_sorted x l :
  StronglySorted key_ge l -> StronglySorted key_ge (insert_desc x l).
Proof.
  induction 1 as [|y l Hs IH Hy]; cbn.
  - repeat constructor.
  - destruct (ltb (key x) (key y)) eqn:Hlt.
    + constructor; [assumption|].
      rewrite insert_desc_perm. constructor; [|assumption].
      apply ltb_asym, Hlt.
    + constructor; [constructor; assumption|].
      constructor; [exact Hlt|].
      eapply Forall_impl; [exact Hy|].
      intros z Hz. eapply ltb_negtrans; [exact Hlt | exact Hz].
Qed.

Lemma sort_reverse_sorted l : StronglySorted key_ge (sort_reverse l).
Proof.
  induction l as [|x l IH]; [constructor|].
  rewrite sort_reverse_cons. apply insert_desc_sorted, IH.
Qed.

Lemma insert_desc_filter k x l :
  filter (key_is k) (insert_desc x l) = filter (key_is k) (x :: l).
Proof.
  induction l as [|y l IH]; [reflexivity|].
  cbn. destruct (ltb (key x) (key y)) eqn:Hlt; [|reflexivity].
  rewrite filter_cons, IH, !filter_cons.
  destruct (decide (key_is k y)) as [[Hy1 Hy2]|], (decide (key_is k x)) as [[Hx1 Hx2]|];
    try reflexivity.
  rewrite (ltb_negtrans _ _ _ Hx1 Hy2) in Hlt. discriminate.
Qed.

(** Stability: the elements of one key come in the order of the input. *)
Lemma sort_reverse_stable k l :
  filter (key_is k) (sort_reverse l) = filter (key_is k) l.
Proof.
  induction l as [|x l IH]; [reflexivity|].
  rewrite sort_reverse_cons, insert_desc_filter, !filter_cons, IH. reflexivity.
Qed.

(** A descending stable arrangement of a list is unique. *)
Lemma sorted_stable_unique l1 l2 :
  l1 ≡ₚ l2 ->
  StronglySorted key_ge l1 -> StronglySorted key_ge l2 ->
  (forall k, filter (key_is k) l1 = filter (key_is k) l2) ->
  l1 = l2.
Proof.
  revert l2. induction l1 as [|x t1 IH]; intros l2 Hperm Hs1 Hs2 Hst.
  - apply Permutation_nil_l in Hperm. exact Hperm.
  - destruct l2 as [|y t2]; [apply Permutation_nil_r in Hperm; discriminate|].
    apply StronglySorted_inv in Hs1 as [Hs1 Hx].
    apply StronglySorted_inv in Hs2 as [Hs2 Hy].
    assert (key_ge x y) as Hxy.
    { assert (y ∈ x :: t1) as Hin by (rewrite Hperm; left).
      apply elem_of_cons in Hin as [->|Hin]; [apply ltb_irrefl|].
      rewrite Forall_forall in Hx. apply Hx, Hin. }
    assert (key_ge y x) as Hyx.
    { assert (x ∈ y :: t2) as Hin by (rewrite <- Hperm; left).
      apply elem_of_cons in Hin as [->|Hin]; [apply ltb_irrefl|].
      rewrite Forall_forall in Hy. apply Hy, Hin. }
    pose proof (Hst (key x)) as Hhead.
    rewrite (filter_cons_True _ x) in Hhead by (split; apply ltb_irrefl).
    rewrite (filter_cons_True _ y) in Hhead by (split; assumption).
    injection Hhead as <- _.
    f_equal. apply IH; [|assumption..|].
    + eapply Permutation_cons_inv. exact Hperm.
    + intros k. specialize (Hst k). rewrite !filter_cons in Hst.
      destruct (decide (key_is k x)); [injection Hst as Hst|]; exact Hst.
Qed.

Lemma sort_reverse_unique l l' :
  l' ≡ₚ l -> StronglySorted key_ge l' ->
  (forall k, filter (key_is k) l' = filter (key_is k) l) ->
  l' = sort_reverse l.
Proof.
  intros Hperm Hs Hst. apply sorted_stable_unique; [|assumption|..].
  - rewrite sort_reverse_perm. exact Hperm.
  - apply sort_reverse_sorted.
  - intros k. rewrite sort_reverse_stable. apply Hst.
Qed.
End SortFacts.

(** ** Context selector *)

Lemma float_ltb_false x y : float_ltb x y = false <-> (y <= x)%Q.
Proof.
  unfold float_ltb. rewrite negb_false_iff. apply Qle_bool_iff.
Qed.

Lemma float_ltb_true x y : float_ltb x y = true <-> (x < y)%Q.
Proof.
  unfold float_ltb. rewrite negb_true_iff, <- not_true_iff_false, Qle_bool_iff.
  split; [apply Qnot_le_lt | apply Qlt_not_le].
Qed.

Lemma float_ltb_irrefl x : float_ltb x x = false.
Proof. apply float_ltb_false, Qle_refl. Qed.

Lemma float_ltb_trans x y z :
  float_ltb x y = true -> float_ltb y z = true -> float_ltb x z = true.
Proof. rewrite !float_ltb_true. apply Qlt_trans. Qed.

Lemma float_ltb_negtrans x y z :
  float_ltb x y = false -> float_ltb y z = false -> float_ltb x z = false.
Proof. rewrite !float_ltb_false. intros H1 H2. eapply Qle_trans; eassumption. Qed.

Lemma float_key_is {A} (key : A -> Q) (k : Q) (x : A) :
  key_is float_ltb key k x <-> (key x == k)%Q.
Proof.
  unfold key_is. rewrite !float_ltb_false. split.
  - intros [H1 H2]. apply Qle_antisym; assumption.
  - intros H. rewrite H. split; apply Qle_refl.
Qed.

Lemma float_key_is_filter {A} (key : A -> Q) (k : Q) (l : list A) :
  filter (key_is float_ltb key k) l = filter (fun x => (key x == k)%Q) l.
Proof. apply list_filter_iff. intros x. apply float_key_is. Qed.

Lemma float_key_ge_sorted {A} (key : A -> Q) (l : list A) :
  StronglySorted (key_ge float_ltb key) l
  <-> StronglySorted (fun x y => (key y <= key x)%Q) l.
Proof.
  induction l as [|x l IH]; [split; constructor|].
  rewrite !StronglySorted_cons, IH. unfold key_ge.
  split; intros [H1 H2]; (split; [|exact H2]);
    (eapply Forall_impl; [exact H1|]); intros y; apply float_ltb_false.
Qed.

(** C5: the scored records are put in descending order of score, records of
    equal score in the order of the corpus; the context is made of the first
    [top_k] of them, without those whose score is not positive.  The ranking
    is the only arrangement with these properties, so the result is a function
    of the entry and of the corpus alone. *)
Theorem select_context_ranking (article : Article) (corpus : list Article)
    (top_k : Z) :
  (0 <= top_k)%Z ->
  is_ranking (scores article corpus) (ranked article corpus)
  /\ select_context article corpus top_k
     = map snd (filter (fun p => (0 < fst p)%Q)
                       (take (Z.to_nat top_k) (ranked article corpus)))
  /\ (forall r, is_ranking (scores article corpus) r -> r = ranked article corpus).
Proof.
  intros Hk. unfold is_ranking, ranked. split; [split; [|split]|split].
  - apply sort_reverse_perm.
  - apply float_key_ge_sorted, sort_reverse_sorted.
    + apply float_ltb_irrefl.
    + apply float_ltb_trans.
    + apply float_ltb_negtrans.
  - intros s. rewrite <- !float_key_is_filter.
    apply sort_reverse_stable. apply float_ltb_negtrans.
  - unfold select_context, slice_to, ranked.
    replace (0 <=? top_k)%Z with true by (symmetry; apply Z.leb_le; exact Hk).
    f_equal. apply list_filter_iff. intros p. apply float_ltb_true.
  - intros r (Hperm & Hsorted & Hstable).
    apply sort_reverse_unique.
    + apply float_ltb_irrefl.
    + apply float_ltb_trans.
    + apply float_ltb_negtrans.
    + exact Hperm.
    + apply float_key_ge_sorted, Hsorted.
    + intros s. rewrite !float_key_is_filter. apply Hstable.
Qed.

Lemma select_context_ranking_witness :
  let new := MkArticle (lit "3") (lit "Cats and dogs") (lit "Cats purr.") [] [] None in
  let h1 := MkArticle (lit "1") (lit "Dogs") (lit "Dogs bark.") [] [] None in
  let h2 := MkArticle (lit "2") (lit "Birds") (lit "Birds sing.") [] [] None in
  let h3 := MkArticle (lit "0") (lit "Cats") (lit "Cats purr.") [] [] None in
  select_context new [h1; h2; h3] 2 = [h3; h1].
Proof.
  intros new h1 h2 h3.
  assert (0 <= 2)%Z as Hk by lia.
  destruct (select_context_ranking new [h1; h2; h3] 2 Hk) as (_ & -> & _).
  vm_compute. reflexivity.
Defined.

(** ** The delivery loop *)

Lemma deliver_one_eq (E : Env) (article : Article) (L : Locals) (w : World) :
  let evs := round_events E article L w in
  deliver_one E article L w
  = (Ok {| seen_ids := seen_ids L ∪ {[art_id article]};
           history := history L ++
             [record_of article (history L) (utcnow_isoformat E (trace w ++ evs))];
           count_sent := count_sent L + 1 |},
     {| disk := disk w; trace := trace w ++ evs |}).
Proof.
  unfold deliver_one, round_events, sink_response, sending_line, failure_line,
    send_telegram_message, print, emit, post, utcnow,
    mbind, M_bind, mret, M_ret, message_for, record_of.
  cbn. destruct (resp_ok _); cbn; rewrite <- ?app_assoc; reflexivity.
Qed.

Lemma round_events_posts E article L w :
  posts (round_events E article L w) = [message_for article (history L)]
  /\ dumps (round_events E article L w) = [].
Proof.
  unfold round_events. cbn. destruct (resp_ok _); split; reflexivity.
Qed.

Lemma posts_app t1 t2 : posts (t1 ++ t2) = posts t1 ++ posts t2.
Proof. apply omap_app. Qed.

Lemma dumps_app t1 t2 : dumps (t1 ++ t2) = dumps t1 ++ dumps t2.
Proof. apply omap_app. Qed.

(** The outcome of the loop: it handles the first articles of [unseen], as
    many as the bound leaves room for. *)
Lemma deliver_spec (E : Env) (unseen : list Article) :
  forall (L : Locals) (w : World),
  let d := take (Z.to_nat (MAX_TELEGRAM_MESSAGES_PER_RUN E - count_sent L)) unseen in
  exists L' evs recs,
    deliver E unseen L w = (Ok L', {| disk := disk w; trace := trace w ++ evs |})
    /\ seen_ids L' = seen_ids L ∪ list_to_set (map art_id d)
    /\ history L' = history L ++ recs
    /\ Forall2 (fun a r => exists h now, r = record_of a h now) d recs
    /\ count_sent L' = (count_sent L + Z.of_nat (length d))%Z
    /\ dumps evs = []
    /\ Forall2 (fun a m => exists h, m = message_for a h) d (posts evs).
Proof.
  induction unseen as [|article rest IH]; intros L w d.
  - exists L, [], []. subst d. rewrite take_nil. destruct w.
    repeat split; cbn;
      rewrite ?app_nil_r, ?Z.add_0_r, ?(right_id_L ∅ (∪)); constructor.
  - cbn [deliver].
    destruct (MAX_TELEGRAM_MESSAGES_PER_RUN E <=? count_sent L)%Z eqn:Hfull.
    + apply Z.leb_le in Hfull.
      assert (Z.to_nat (MAX_TELEGRAM_MESSAGES_PER_RUN E - count_sent L) = 0) as Hz by lia.
      subst d. rewrite Hz.
      exists L, [], []. destruct w.
      repeat split; cbn;
        rewrite ?app_nil_r, ?Z.add_0_r, ?(right_id_L ∅ (∪)); constructor.
    + apply Z.leb_gt in Hfull.
      unfold mbind, M_bind. rewrite deliver_one_eq.
      destruct (round_events_posts E article L w) as [Hp1 Hd1].
      remember (round_events E article L w) as evs1 eqn:Hevs1. clear Hevs1.
      match goal with
      | |- context [deliver E rest ?L1 ?w1] =>
          destruct (IH L1 w1)
            as (L' & evs & recs & Heq & Hseen & Hhist & Hrecs & Hcount & Hdumps & Hposts)
      end.
      cbn [seen_ids history count_sent disk trace] in *.
      assert (Z.to_nat (MAX_TELEGRAM_MESSAGES_PER_RUN E - count_sent L)
              = S (Z.to_nat (MAX_TELEGRAM_MESSAGES_PER_RUN E - (count_sent L + 1)))) as Hs
        by lia.
      subst d. rewrite Hs. cbn [take map length].
      exists L', (evs1 ++ evs), (record_of article (history L)
                                 (utcnow_isoformat E (trace w ++ evs1)) :: recs).
      rewrite Heq, posts_app, dumps_app, Hp1, Hd1, Hdumps, Hseen, Hhist, Hcount.
      rewrite <- !app_assoc.
      repeat split.
      * cbn. rewrite (assoc_L (∪)). reflexivity.
      * constructor; [eauto | assumption].
      * lia.
      * constructor; [eauto | assumption].
Qed.

(** The records of the loop, each built against the history of its turn. *)
Lemma deliver_chained (E : Env) (unseen : list Article) :
  forall (L : Locals) (w : World),
  exists L' w' recs,
    deliver E unseen L w = (Ok L', w')
    /\ disk w' = disk w
    /\ history L' = history L ++ recs
    /\ chained (history L)
               (take (Z.to_nat (MAX_TELEGRAM_MESSAGES_PER_RUN E - count_sent L)) unseen)
               recs.
Proof.
  induction unseen as [|article rest IH]; intros L w.
  - exists L, w, []. rewrite take_nil, app_nil_r. repeat split.
  - cbn [deliver].
    destruct (MAX_TELEGRAM_MESSAGES_PER_RUN E <=? count_sent L)%Z eqn:Hfull.
    + apply Z.leb_le in Hfull.
      replace (Z.to_nat (MAX_TELEGRAM_MESSAGES_PER_RUN E - count_sent L)) with 0 by lia.
      exists L, w, []. rewrite app_nil_r. repeat split.
    + apply Z.leb_gt in Hfull.
      unfold mbind, M_bind. rewrite deliver_one_eq.
      match goal with
      | |- context [deliver E rest ?L1 ?w1] =>
          destruct (IH L1 w1) as (L' & w' & recs & Heq & Hdisk & Hhist & Hchain)
      end.
      cbn [seen_ids history count_sent disk trace] in *.
      replace (Z.to_nat (MAX_TELEGRAM_MESSAGES_PER_RUN E - count_sent L))
        with (S (Z.to_nat (MAX_TELEGRAM_MESSAGES_PER_RUN E - (count_sent L + 1)))) by lia.
      eexists L', w', (_ :: recs). rewrite Heq.
      split; [reflexivity|]. split; [exact Hdisk|].
      split; [rewrite Hhist, <- app_assoc; reflexivity|].
      cbn [take chained]. split; [eexists; reflexivity | exact Hchain].
Qed.

(** ** One run *)

Lemma fetch_feeds_spec (E : Env) (urls : list str) (w : World) :
  exists evs,
    fetch_feeds E urls w
    = (Ok (flat_map (fun url => map parse_entry (feedparser_parse E url)) urls),
       {| disk := disk w; trace := trace w ++ evs |})
    /\ posts evs = [] /\ dumps evs = [].
Proof.
  revert w. induction urls as [|url urls IH]; intros w.
  - exists []. destruct w. cbn. rewrite app_nil_r. repeat split.
  - cbn [fetch_feeds]. unfold mbind, M_bind, print, emit.
    match goal with
    | |- context [fetch_feeds E urls ?w1] => destruct (IH w1) as (evs & Heq & Hp & Hd)
    end.
    rewrite Heq. cbn [disk trace].
    exists (Print (join (lit " ") [lit "Fetching:"; url]) :: evs).
    rewrite <- app_assoc.
    split; [reflexivity|]. split; [exact Hp | exact Hd].
Qed.

Lemma load_state_eq (w : World) :
  load_state w =
  match disk w with
  | None => (Ok {| st_seen_ids := Some []; st_articles := Some [] |}, w)
  | Some Unreadable => (Raise OSError, w)
  | Some (Readable None) => (Raise JSONDecodeError, w)
  | Some (Readable (Some st)) => (Ok st, w)
  end.
Proof.
  unfold load_state, os_path_exists, open_read, json_load, mbind, M_bind.
  destruct (disk w) as [[|[st|]]|] eqn:Hd; cbn; rewrite ?Hd; reflexivity.
Qed.

(** The run after the state is loaded and the feeds are fetched. *)
Lemma run_unfold (E : Env) (w w0 : World) (st : State) :
  load_state w = (Ok st, w) ->
  fetch_feeds E (RSS_FEEDS E) w = (Ok (fetched E), w0) ->
  run_rss_to_telegram E w =
  match unseen_of E st with
  | [] => print [lit "No new articles."] w0
  | _ =>
      (L ← deliver E (delivery_order E st)
             {| seen_ids := seen_of st; history := history_of st; count_sent := 0 |};
       save_state {| st_seen_ids := Some (elements (seen_ids L));
                     st_articles := Some (history L) |};;
       print [lit "Done. Sent " ++ str_of_int (count_sent L) ++ lit " messages."]) w0
  end.
Proof.
  intros Hload Hfetch.
  unfold run_rss_to_telegram, fetch_new_articles, delivery_order, unseen_of, seen_of,
    history_of.
  unfold mbind at 1. unfold M_bind at 1. rewrite Hload.
  unfold mbind at 1. unfold M_bind at 1. rewrite Hfetch.
  destruct (filter _ (fetched E)); reflexivity.
Qed.

(** A run that finds nothing unseen only prints; any other run hands the
    articles of [delivered] to the loop, then writes the state and prints the
    last line. *)
Lemma run_spec (E : Env) (w : World) (st : State) :
  load_state w = (Ok st, w) ->
  (unseen_of E st = []
   /\ exists evs,
       run_rss_to_telegram E w = (Ok tt, {| disk := disk w; trace := trace w ++ evs |})
       /\ posts evs = [] /\ dumps evs = [])
  \/ (unseen_of E st <> []
      /\ exists pre st' line recs,
          run_rss_to_telegram E w
          = (Ok tt, {| disk := Some (Readable (Some st'));
                       trace := trace w ++ pre ++ [Dump st'; Print line] |})
          /\ dumps pre = []
          /\ Forall2 (fun a m => exists h, m = message_for a h) (delivered E st) (posts pre)
          /\ st_seen_ids st'
             = Some (elements (seen_of st ∪ list_to_set (map art_id (delivered E st))))
          /\ st_articles st' = Some (history_of st ++ recs)
          /\ Forall2 (fun a r => exists h now, r = record_of a h now) (delivered E st) recs).
Proof.
  intros Hload.
  destruct (fetch_feeds_spec E (RSS_FEEDS E) w) as (evs0 & Hfetch & Hp0 & Hd0).
  rewrite (run_unfold E w _ st Hload Hfetch).
  destruct (unseen_of E st) as [|a unseen] eqn:Hunseen.
  - left. split; [reflexivity|].
    exists (evs0 ++ [Print (join (lit " ") [lit "No new articles."])]).
    unfold print, emit. cbn [disk trace]. rewrite <- app_assoc.
    rewrite posts_app, dumps_app, Hp0, Hd0. repeat split.
  - right. split; [discriminate|].
    unfold delivered. unfold mbind, M_bind.
    match goal with
    | |- context [deliver E ?u ?L0 ?w0] =>
        destruct (deliver_spec E u L0 w0)
          as (L' & evs & recs & -> & Hseen & Hhist & Hrecs & Hcount & Hdumps & Hposts)
    end.
    cbn [seen_ids history count_sent disk trace] in *.
    rewrite Z.sub_0_r in *.
    unfold save_state, print, emit. cbn [disk trace].
    eexists (evs0 ++ evs), _, _, recs. rewrite <- !app_assoc. cbn [app].
    split; [reflexivity|].
    rewrite dumps_app, posts_app, Hp0, Hd0, Hdumps, Hseen, Hhist.
    cbn [app st_seen_ids st_articles].
    repeat split; assumption.
Qed.

(** ** The order of strings *)

Lemma str_ltb_irrefl (s : str) : str_ltb s s = false.
Proof.
  induction s as [|c s IH]; [reflexivity|].
  cbn. unfold Char.ltb. rewrite N.ltb_irrefl. exact IH.
Qed.

Lemma str_ltb_trans (s t u : str) :
  str_ltb s t = true -> str_ltb t u = true -> str_ltb s u = true.
Proof.
  revert t u. induction s as [|a s IH]; intros [|b t] [|c u]; cbn; try congruence.
  unfold Char.ltb.
  destruct (N.ltb_spec (Char.code a) (Char.code b)),
           (N.ltb_spec (Char.code b) (Char.code a)),
           (N.ltb_spec (Char.code b) (Char.code c)),
           (N.ltb_spec (Char.code c) (Char.code b)),
           (N.ltb_spec (Char.code a) (Char.code c)),
           (N.ltb_spec (Char.code c) (Char.code a));
    try congruence; try lia.
  apply IH.
Qed.

Lemma str_ltb_negtrans (s t u : str) :
  str_ltb s t = false -> str_ltb t u = false -> str_ltb s u = false.
Proof.
  revert t u. induction s as [|a s IH]; intros [|b t] [|c u]; cbn; try congruence.
  unfold Char.ltb.
  destruct (N.ltb_spec (Char.code a) (Char.code b)),
           (N.ltb_spec (Char.code b) (Char.code a)),
           (N.ltb_spec (Char.code b) (Char.code c)),
           (N.ltb_spec (Char.code c) (Char.code b)),
           (N.ltb_spec (Char.code a) (Char.code c)),
           (N.ltb_spec (Char.code c) (Char.code a));
    try congruence; try lia.
  apply IH.
Qed.

(** Two strings neither of which is before the other are the same string. *)
Lemma str_ltb_total (s t : str) :
  str_ltb s t = false -> str_ltb t s = false -> s = t.
Proof.
  revert t. induction s as [|a s IH]; intros [|b t]; cbn; try congruence.
  unfold Char.ltb.
  destruct (N.ltb_spec (Char.code a) (Char.code b)),
           (N.ltb_spec (Char.code b) (Char.code a));
    try congruence; try lia.
  intros Hst Hts. f_equal; [|apply IH; assumption].
  rewrite <- (ascii_N_embedding a), <- (ascii_N_embedding b).
  f_equal. unfold Char.code in *. lia.
Qed.

Lemma str_key_is {A} (key : A -> str) (k : str) (x : A) :
  key_is str_ltb key k x <-> key x = k.
Proof.
  unfold key_is. split.
  - intros [H1 H2]. apply str_ltb_total; assumption.
  - intros ->. split; apply str_ltb_irrefl.
Qed.

Lemma str_key_is_filter {A} (key : A -> str) (k : str) (l : list A) :
  filter (key_is str_ltb key k) l = filter (fun x => key x = k) l.
Proof. apply list_filter_iff. intros x. apply str_key_is. Qed.

(** The order of delivery: the unseen articles by descending [published],
    those with the same [published] in the order of the feeds. *)
Lemma delivery_order_sorted (E : Env) (st : State) :
  delivery_order E st ≡ₚ unseen_of E st
  /\ StronglySorted (fun a b => str_ltb (art_published a) (art_published b) = false)
                    (delivery_order E st)
  /\ (forall p, filter (fun a => art_published a = p) (delivery_order E st)
                = filter (fun a => art_published a = p) (unseen_of E st)).
Proof.
  unfold delivery_order. split; [|split].
  - apply sort_reverse_perm.
  - apply (sort_reverse_sorted str_ltb parse_pub).
    + apply str_ltb_irrefl.
    + apply str_ltb_trans.
    + apply str_ltb_negtrans.
  - intros p. rewrite <- !(str_key_is_filter parse_pub).
    apply sort_reverse_stable. apply str_ltb_negtrans.
Qed.

Lemma load_state_disk (w w' : World) (st : State) :
  load_state w = (Ok st, w) -> disk w' = disk w -> load_state w' = (Ok st, w').
Proof.
  rewrite !load_state_eq. intros Hload ->.
  destruct (disk w) as [[|[st0|]]|]; congruence.
Qed.

(** The ledger after a run: the ledger before it with the ids and the records
    of [delivered], whose messages are the ones posted. *)
Lemma run_ledger (E : Env) (w : World) (st : State) :
  load_state w = (Ok st, w) ->
  exists w' evs st' recs,
    run_rss_to_telegram E w = (Ok tt, w')
    /\ trace w' = trace w ++ evs
    /\ load_state w' = (Ok st', w')
    /\ Forall2 (fun a m => exists h, m = message_for a h) (delivered E st) (posts evs)
    /\ seen_of st' = seen_of st ∪ list_to_set (map art_id (delivered E st))
    /\ history_of st' = history_of st ++ recs
    /\ Forall2 (fun a r => exists h now, r = record_of a h now) (delivered E st) recs.
Proof.
  intros Hload.
  destruct (run_spec E w st Hload)
    as [(Hnone & evs & Hrun & Hposts & _)
       |(_ & pre & st' & line & recs & Hrun & Hdumps & Hposts & Hseen & Hhist & Hrecs)].
  - assert (delivered E st = []) as Hd.
    { unfold delivered, delivery_order. rewrite Hnone. apply take_nil. }
    eexists _, evs, st, []. rewrite Hd, Hposts, app_nil_r. cbn [map list_to_set].
    rewrite (right_id_L ∅ (∪)).
    split; [exact Hrun|]. split; [reflexivity|].
    split; [eapply load_state_disk; [exact Hload | reflexivity]|].
    repeat split; constructor.
  - eexists _, _, st', recs.
    split; [exact Hrun|]. split; [reflexivity|].
    split; [rewrite load_state_eq; reflexivity|].
    rewrite posts_app, app_nil_r.
    unfold seen_of at 1, history_of at 1. rewrite Hseen, Hhist.
    cbn [default from_option id]. rewrite list_to_set_elements_L.
    repeat split; assumption.
Qed.

Example run_example :
  exists w, run_rss_to_telegram (example_env [cats] 5 true) fresh = (Ok tt, w)
    /\ disk w = Some (Readable (Some
         {| st_seen_ids := Some [lit "1"];
            st_articles := Some
              [MkArticle (lit "1") (lit "A") (lit "Cats are great. They purr.") []
                         (lit "2024-01-01") (Some (lit "2024-01-02T00:00:00"))] |})).
Proof. eexists. split; vm_compute; reflexivity. Qed.

(** ** Loading the state *)

(** C9, as the code has it: without a state file the empty ledger is returned;
    a file that cannot be opened or that is not a JSON document makes the load
    raise; a file that is a JSON document is returned as it is stored. *)
Theorem load_state_outcomes (w : World) :
  (disk w = None ->
   load_state w = (Ok {| st_seen_ids := Some []; st_articles := Some [] |}, w))
  /\ (disk w = Some Unreadable -> load_state w = (Raise OSError, w))
  /\ (disk w = Some (Readable None) -> load_state w = (Raise JSONDecodeError, w))
  /\ (forall st, disk w = Some (Readable (Some st)) -> load_state w = (Ok st, w)).
Proof.
  rewrite load_state_eq.
  repeat split; [intros -> ..| intros st ->]; reflexivity.
Qed.

Lemma load_state_outcomes_witness :
  load_state fresh = (Ok {| st_seen_ids := Some []; st_articles := Some [] |}, fresh)
  /\ load_state {| disk := Some (Readable None); trace := [] |}
     = (Raise JSONDecodeError, {| disk := Some (Readable None); trace := [] |}).
Proof.
  split.
  - destruct (load_state_outcomes fresh) as (Habsent & _).
    apply Habsent. reflexivity.
  - destruct (load_state_outcomes {| disk := Some (Readable None); trace := [] |})
      as (_ & _ & Hcorrupt & _).
    apply Hcorrupt. reflexivity.
Defined.

(** C9, the counterexample: a run that may send nothing leaves a state file
    with an empty ledger; the next load returns the empty ledger although the
    file exists. *)
Lemma load_state_empty_with_file :
  let w := snd (run_rss_to_telegram (example_env [cats] 0 true) fresh) in
  disk w = Some (Readable (Some {| st_seen_ids := Some []; st_articles := Some [] |}))
  /\ ~ (forall st, load_state w = (Ok st, w) ->
                   seen_of st = ∅ /\ history_of st = [] -> disk w = None).
Proof.
  intros w. split; [vm_compute; reflexivity|].
  intros H.
  specialize (H {| st_seen_ids := Some []; st_articles := Some [] |}).
  assert (disk w = None) as Hd.
  { apply H; [vm_compute; reflexivity|]. split; reflexivity. }
  vm_compute in Hd. discriminate.
Qed.

(** ** Persisting the state *)

(** C1, as the code has it: a run that finds unseen articles writes the state
    once, after everything it posts and just before its last line, whatever
    the number of articles delivered, zero included; what it writes is the
    ledger: the ids it loaded with the ids of the delivered articles, and the
    history it loaded followed by their records; it is what the state file
    holds afterwards.  A run that finds nothing unseen returns before that
    and writes nothing. *)
Theorem run_persists_once (E : Env) (w : World) (st : State) :
  load_state w = (Ok st, w) ->
  exists w' evs,
    run_rss_to_telegram E w = (Ok tt, w')
    /\ trace w' = trace w ++ evs
    /\ (unseen_of E st = [] -> dumps evs = [] /\ disk w' = disk w)
    /\ (unseen_of E st <> [] ->
        exists pre recs line,
          let st' :=
            {| st_seen_ids :=
                 Some (elements (seen_of st
                                 ∪ list_to_set (map art_id (delivered E st))));
               st_articles := Some (history_of st ++ recs) |} in
          evs = pre ++ [Dump st'; Print line]
          /\ dumps pre = []
          /\ length (posts pre) = length (delivered E st)
          /\ chained (history_of st) (delivered E st) recs
          /\ disk w' = Some (Readable (Some st'))).
Proof.
  intros Hload.
  destruct (fetch_feeds_spec E (RSS_FEEDS E) w) as (evs0 & Hfetch & Hp0 & Hd0).
  rewrite (run_unfold E w _ st Hload Hfetch).
  destruct (unseen_of E st) as [|a unseen] eqn:Hunseen.
  - eexists _, (evs0 ++ [Print (join (lit " ") [lit "No new articles."])]).
    unfold print, emit. cbn [disk trace]. rewrite <- app_assoc.
    split; [reflexivity|]. split; [reflexivity|].
    split; [|intros Hne; contradiction].
    intros _. rewrite dumps_app, Hd0. split; reflexivity.
  - unfold mbind, M_bind. unfold delivered.
    match goal with
    | |- context [deliver E ?u ?L0 ?w0] =>
        destruct (deliver_spec E u L0 w0)
          as (L' & evs & recs & Heq & Hseen & Hhist & _ & _ & Hdumps & Hposts);
        destruct (deliver_chained E u L0 w0)
          as (L2 & w2 & recs2 & Heq2 & _ & Hhist2 & Hchain)
    end.
    rewrite Heq in Heq2. injection Heq2 as <- _.
    rewrite Hhist in Hhist2. apply app_inv_head in Hhist2. subst recs2.
    rewrite Heq.
    cbn [seen_ids history count_sent disk trace] in *.
    rewrite Z.sub_0_r in *.
    unfold save_state, print, emit. cbn [disk trace].
    rewrite Hseen, Hhist.
    eexists _, (evs0 ++ evs ++ [_; _]). rewrite <- !app_assoc.
    split; [reflexivity|]. split; [reflexivity|].
    split; [intros Hnone; discriminate Hnone|].
    intros _. exists (evs0 ++ evs), recs. eexists. cbv zeta.
    rewrite <- app_assoc.
    split; [reflexivity|].
    split; [rewrite dumps_app, Hd0, Hdumps; reflexivity|].
    split; [rewrite posts_app, Hp0; symmetry; apply (Forall2_length _ _ _ Hposts)|].
    split; [exact Hchain | reflexivity].
Qed.

Lemma run_persists_once_witness :
  let E := example_env [cats; dogs; birds] 5 true in
  exists w' st',
    run_rss_to_telegram E after_cats = (Ok tt, w')
    /\ dumps (trace w') = [st']
    /\ disk w' = Some (Readable (Some st'))
    /\ length (posts (trace w')) = 2
    /\ map art_id (history_of st') = [lit "1"; lit "2"; lit "3"]
    /\ seen_of st' = {[lit "1"; lit "2"; lit "3"]}.
Proof.
  intros E.
  assert (exists st, load_state after_cats = (Ok st, after_cats)) as [st Hload]
    by (eexists; reflexivity).
  destruct (run_persists_once E after_cats st Hload)
    as (w' & evs & Hrun & Htrace & _ & Hsome).
  assert (w' = snd (run_rss_to_telegram E after_cats)) as Hw
    by (rewrite Hrun; reflexivity).
  eexists w', _. split; [exact Hrun|]. rewrite Hw.
  split; [vm_compute; reflexivity|].
  split; [vm_compute; reflexivity|].
  split; [vm_compute; reflexivity|].
  split; [vm_compute; reflexivity|].
  apply set_eq. intros x. unfold seen_of. rewrite elem_of_list_to_set.
  cbn [st_seen_ids default from_option id].
  rewrite !elem_of_union, !elem_of_singleton, !elem_of_cons, elem_of_nil.
  tauto.
Defined.

(** C1, the counterexample: the feed has no entry, so nothing is unseen; the
    run ends without writing the state, and no state file exists after it. *)
Lemma run_without_unseen_writes_nothing :
  exists w,
    run_rss_to_telegram (example_env [] 5 true) fresh = (Ok tt, w)
    /\ dumps (trace w) = []
    /\ disk w = None.
Proof. eexists. repeat split; vm_compute; reflexivity. Qed.

(** ** Delivery failures *)

(** C2, as the code has it: every article the loop handles gets its id into
    [seen_ids] and its record at the end of [history], and counts as sent,
    whatever the sink answers; a failure of the sink is only printed, and the
    loop goes on with the next article. *)
Theorem deliver_records_regardless (E : Env) (article : Article)
    (rest : list Article) (L : Locals) (w : World) :
  (count_sent L < MAX_TELEGRAM_MESSAGES_PER_RUN E)%Z ->
  exists L1 w1 evs now,
    deliver_one E article L w = (Ok L1, w1)
    /\ deliver E (article :: rest) L w = deliver E rest L1 w1
    /\ seen_ids L1 = seen_ids L ∪ {[art_id article]}
    /\ history L1 = history L ++ [record_of article (history L) now]
    /\ count_sent L1 = (count_sent L + 1)%Z
    /\ trace w1 = trace w ++ evs
    /\ posts evs = [message_for article (history L)]
    /\ (resp_ok (sink_response E article L w) = false ->
        last evs = Some (failure_line (sink_response E article L w))).
Proof.
  intros Hroom.
  pose proof (deliver_one_eq E article L w) as Hone. cbv zeta in Hone.
  eexists _, _, (round_events E article L w), _.
  split; [exact Hone|].
  split.
  { cbn [deliver].
    replace (MAX_TELEGRAM_MESSAGES_PER_RUN E <=? count_sent L)%Z with false
      by (symmetry; apply Z.leb_gt; exact Hroom).
    unfold mbind, M_bind. rewrite Hone. reflexivity. }
  cbn [seen_ids history count_sent trace].
  repeat split.
  - apply round_events_posts.
  - intros Hfail. unfold round_events. rewrite Hfail. reflexivity.
Qed.

Lemma deliver_records_regardless_witness :
  let E := example_env [cats] 5 false in
  let L := {| seen_ids := ∅; history := []; count_sent := 0 |} in
  exists L1 w1,
    deliver_one E (parse_entry cats) L fresh = (Ok L1, w1)
    /\ seen_ids L1 = seen_ids L ∪ {[lit "1"]}
    /\ count_sent L1 = 1%Z
    /\ last (trace w1) = Some (Print (lit "Failed to send message: Bad Request")).
Proof.
  intros E L.
  assert (count_sent L < MAX_TELEGRAM_MESSAGES_PER_RUN E)%Z as Hroom by reflexivity.
  destruct (deliver_records_regardless E (parse_entry cats) [] L fresh Hroom)
    as (L1 & w1 & evs & now & Hone & _ & Hseen & _ & Hcount & Htrace & _ & Hfail).
  exists L1, w1. split; [exact Hone|]. split; [exact Hseen|]. split; [exact Hcount|].
  rewrite Htrace. cbn [trace fresh app]. rewrite Hfail; reflexivity.
Defined.

(** C2, the counterexample: the sink refuses every message; after the run the
    id of the article is in the state that was written, with its record. *)
Lemma failed_delivery_is_recorded :
  let E := example_env [cats] 5 false in
  (forall t m, resp_ok (requests_post E t m) = false)
  /\ exists w,
      run_rss_to_telegram E fresh = (Ok tt, w)
      /\ posts (trace w) = [lit "Title: A" ++ nl ++ nl ++ lit "Summary: Cats are great. They purr."]
      /\ disk w = Some (Readable (Some
           {| st_seen_ids := Some [lit "1"];
              st_articles := Some
                [MkArticle (lit "1") (lit "A") (lit "Cats are great. They purr.") []
                           (lit "2024-01-01") (Some (lit "2024-01-02T00:00:00"))] |})).
Proof.
  intros E. split; [reflexivity|].
  eexists. repeat split; vm_compute; reflexivity.
Qed.

(** ** What a run delivers *)

Lemma records_ids (d recs : list Article) :
  Forall2 (fun a r => exists h now, r = record_of a h now) d recs ->
  map art_id recs = map art_id d.
Proof.
  induction 1 as [|a r d recs (h & now & ->) _ IH]; [reflexivity|].
  cbn. rewrite IH. reflexivity.
Qed.

(** A delivered article comes from the feeds and was not seen before. *)
Lemma delivered_unseen (E : Env) (st : State) (a : Article) :
  a ∈ delivered E st -> a ∈ fetched E /\ art_id a ∉ seen_of st.
Proof.
  intros Hin. apply subseteq_take in Hin.
  unfold delivery_order in Hin. rewrite sort_reverse_perm in Hin.
  apply list_elem_of_filter in Hin as [Hunseen Hin]. split; assumption.
Qed.

Section Counting.
Context {A : Type} (P : A -> Prop) `{!forall x, Decision (P x)}.

Lemma filter_none (l : list A) :
  (forall x, x ∈ l -> ~ P x) -> filter P l = [].
Proof.
  intros Hnone. destruct (filter P l) as [|x l'] eqn:Hf; [reflexivity|].
  assert (x ∈ filter P l) as Hin by (rewrite Hf; left).
  apply list_elem_of_filter in Hin as [HP Hin]. destruct (Hnone x Hin HP).
Qed.


End Counting.


(** When the ids of the feeds are distinct, so are the delivered ones. *)
Lemma delivered_ids_NoDup (E : Env) (st : State) :
  NoDup (map art_id (fetched E)) -> NoDup (map art_id (delivered E st)).
Proof.
  intros Hnodup.
  assert (NoDup (art_id <$> unseen_of E st)) as Hunseen.
  { eapply sublist_NoDup; [exact Hnodup|].
    apply (fmap_sublist art_id), sublist_filter. }
  assert (NoDup (art_id <$> delivery_order E st)) as Horder.
  { unfold delivery_order. rewrite sort_reverse_perm. exact Hunseen. }
  eapply sublist_NoDup; [exact Horder|].
  apply (fmap_sublist art_id), sublist_take.
Qed.

(** C7, as the code has it: the unseen articles are handled by descending
    [published], compared as strings, those with the same [published] in the
    order of the feeds; the first of them are delivered and recorded, at most
    as many as the bound; with a bound of 2 and three unseen articles, the two
    first in that order are delivered, and the id of the third is not in
    [seen_ids] afterwards when it is not the id of one of these two. *)
Theorem run_delivers_latest (E : Env) (w : World) (st : State) :
  load_state w = (Ok st, w) ->
  (delivery_order E st ≡ₚ unseen_of E st
   /\ StronglySorted (fun a b => str_ltb (art_published a) (art_published b) = false)
                     (delivery_order E st)
   /\ (forall p, filter (fun a => art_published a = p) (delivery_order E st)
                 = filter (fun a => art_published a = p) (unseen_of E st)))
  /\ exists w' evs st' recs,
      run_rss_to_telegram E w = (Ok tt, w')
      /\ trace w' = trace w ++ evs
      /\ load_state w' = (Ok st', w')
      /\ Forall2 (fun a m => exists h, m = message_for a h) (delivered E st) (posts evs)
      /\ length (posts evs) <= Z.to_nat (MAX_TELEGRAM_MESSAGES_PER_RUN E)
      /\ seen_of st' = seen_of st ∪ list_to_set (map art_id (delivered E st))
      /\ history_of st' = history_of st ++ recs
      /\ map art_id recs = map art_id (delivered E st)
      /\ (forall e1 e2 e3,
            MAX_TELEGRAM_MESSAGES_PER_RUN E = 2%Z ->
            delivery_order E st = [e1; e2; e3] ->
            art_id e3 <> art_id e1 -> art_id e3 <> art_id e2 ->
            delivered E st = [e1; e2] /\ art_id e3 ∉ seen_of st').
Proof.
  intros Hload. split; [apply delivery_order_sorted|].
  destruct (run_ledger E w st Hload)
    as (w' & evs & st' & recs & Hrun & Htrace & Hload' & Hposts & Hseen & Hhist & Hrecs).
  exists w', evs, st', recs.
  do 4 (split; [assumption|]).
  split.
  { rewrite <- (Forall2_length _ _ _ Hposts). unfold delivered.
    rewrite length_take. apply Nat.le_min_l. }
  do 2 (split; [assumption|]).
  split; [apply records_ids, Hrecs|].
  intros e1 e2 e3 Htwo Horder Hne1 Hne2.
  assert (delivered E st = [e1; e2]) as Hd.
  { unfold delivered. rewrite Htwo, Horder. reflexivity. }
  split; [exact Hd|].
  rewrite Hseen, Hd. cbn [map list_to_set].
  assert (art_id e3 ∉ seen_of st) as Hnew.
  { assert (e3 ∈ unseen_of E st) as Hin.
    { destruct (delivery_order_sorted E st) as (Hperm & _).
      rewrite <- Hperm, Horder. do 2 right. left. }
    apply list_elem_of_filter in Hin. apply Hin. }
  rewrite !elem_of_union, !elem_of_singleton, elem_of_empty. tauto.
Qed.

Lemma run_delivers_latest_witness :
  let E := example_env [cats; dogs; birds] 2 true in
  let st := {| st_seen_ids := Some []; st_articles := Some [] |} in
  delivered E st = [parse_entry dogs; parse_entry birds]
  /\ exists w' st',
      run_rss_to_telegram E fresh = (Ok tt, w')
      /\ load_state w' = (Ok st', w')
      /\ art_id (parse_entry cats) ∉ seen_of st'.
Proof.
  intros E st.
  assert (load_state fresh = (Ok st, fresh)) as Hload by reflexivity.
  destruct (run_delivers_latest E fresh st Hload)
    as (_ & w' & evs & st' & recs & Hrun & _ & Hload' & _ & _ & _ & _ & _ & Hthree).
  assert (delivery_order E st = [parse_entry dogs; parse_entry birds; parse_entry cats])
    as Horder by (vm_compute; reflexivity).
  destruct (Hthree _ _ _ eq_refl Horder) as [Hd Hnot];
    [vm_compute; discriminate | vm_compute; discriminate |].
  split; [exact Hd|].
  exists w', st'. split; [exact Hrun|]. split; [exact Hload' | exact Hnot].
Defined.

(** C7, the counterexample: two feeds have the same entry, so three articles
    are unseen and the bound is 2; the two first are delivered, and the id of
    the third, which is the id of the second, is in [seen_ids] afterwards. *)
Lemma third_id_seen_when_shared :
  let E := overlapping_env in
  let st := {| st_seen_ids := Some []; st_articles := Some [] |} in
  MAX_TELEGRAM_MESSAGES_PER_RUN E = 2%Z
  /\ load_state fresh = (Ok st, fresh)
  /\ delivery_order E st = [parse_entry dogs; parse_entry cats; parse_entry cats]
  /\ exists w' st',
      run_rss_to_telegram E fresh = (Ok tt, w')
      /\ load_state w' = (Ok st', w')
      /\ length (posts (trace w')) = 2
      /\ art_id (parse_entry cats) ∈ seen_of st'.
Proof.
  intros E st. split; [reflexivity|]. split; [reflexivity|].
  split; [vm_compute; reflexivity|].
  eexists _, _. split; [vm_compute; reflexivity|].
  split; [vm_compute; reflexivity|].
  split; [vm_compute; reflexivity|].
  apply elem_of_list_to_set. cbn. right. left.
Qed.

(** ** Two runs *)




(** * Further properties *)

(** ** Tokens *)

Lemma is_word_lower (c : ascii) : Char.is_word (Char.lower c) = Char.is_word c.
Proof. destruct c as [[] [] [] [] [] [] [] []]; reflexivity. Qed.

Lemma lower_lower_char (c : ascii) : Char.lower (Char.lower c) = Char.lower c.
Proof. destruct c as [[] [] [] [] [] [] [] []]; reflexivity. Qed.

Lemma lower_idemp (s : str) : lower (lower s) = lower s.
Proof.
  unfold lower. rewrite map_map. apply map_ext. intros c. apply lower_lower_char.
Qed.

Lemma flush_matches (cur : str) :
  Forall (fun c => Char.is_word c = true) cur -> Forall is_match (flush cur).
Proof.
  intros Hcur. destruct cur as [|c cur]; [constructor|].
  constructor; [|constructor]. split.
  - cbn. intros Hnil. apply app_eq_nil in Hnil as [_ Hnil]. discriminate.
  - apply Forall_rev. exact Hcur.
Qed.

Lemma findall_words_matches (s : str) :
  forall cur, Forall (fun c => Char.is_word c = true) cur ->
  Forall is_match (findall_words cur s).
Proof.
  induction s as [|c s IH]; intros cur Hcur; cbn.
  - apply flush_matches, Hcur.
  - destruct (Char.is_word c) eqn:Hc.
    + apply IH. constructor; assumption.
    + apply Forall_app. split; [apply flush_matches, Hcur|].
      apply IH. constructor.
Qed.

(** X1: for a text of code points U+0000..U+00FF, every token is a lower-case
    word: it is not empty, it is made of word characters, and [lower] leaves
    it as it is.  (Beyond that range [str.lower] may add characters that are
    not word characters.) *)
Theorem text_to_tokens_words (text t : str) :
  t ∈ text_to_tokens text ->
  t <> [] /\ Forall (fun c => Char.is_word c = true) t /\ lower t = t.
Proof.
  unfold text_to_tokens. rewrite elem_of_list_to_set.
  intros Hin. apply list_elem_of_fmap in Hin as (m & -> & Hm).
  pose proof (findall_words_matches text [] (Forall_nil_2 _)) as Hall.
  rewrite Forall_forall in Hall. destruct (Hall m Hm) as [Hne Hword].
  split; [|split].
  - destruct m; [contradiction | discriminate].
  - unfold lower. apply Forall_fmap. eapply Forall_impl; [exact Hword|].
    intros c Hc. cbn. rewrite is_word_lower. exact Hc.
  - apply lower_idemp.
Qed.

Lemma text_to_tokens_words_witness :
  lit "dogs_1" <> [] /\ Forall (fun c => Char.is_word c = true) (lit "dogs_1")
  /\ lower (lit "dogs_1") = lit "dogs_1".
Proof.
  apply (text_to_tokens_words (lit "Cats, cats & DOGS_1!") (lit "dogs_1")).
  apply elem_of_list_to_set. vm_compute. do 2 right. left.
Defined.

Lemma flush_lower (cur : str) : flush (lower cur) = map lower (flush cur).
Proof.
  destruct cur as [|c cur]; [reflexivity|].
  cbn. unfold lower. rewrite map_app, map_rev. reflexivity.
Qed.

Lemma findall_words_lower (s : str) :
  forall cur, findall_words (lower cur) (lower s) = map lower (findall_words cur s).
Proof.
  induction s as [|c s IH]; intros cur; cbn.
  - apply flush_lower.
  - rewrite is_word_lower. destruct (Char.is_word c).
    + apply (IH (c :: cur)).
    + rewrite map_app, flush_lower. f_equal. apply (IH []).
Qed.

Lemma text_to_tokens_lower (s : str) : text_to_tokens (lower s) = text_to_tokens s.
Proof.
  unfold text_to_tokens.
  change (findall_words [] (lower s)) with (findall_words (lower []) (lower s)).
  rewrite (findall_words_lower s []), map_map. f_equal. apply map_ext. intros t. apply lower_idemp.
Qed.

(** X2: for texts of code points U+0000..U+00FF the case of the letters does
    not matter: texts that are the same in lower case have the same tokens,
    and the same score against any other pair of that kind.  (Beyond that
    range [str.lower] may change where the words end.) *)
Theorem simple_similarity_ignores_case (a a' b b' : str) :
  lower a = lower a' -> lower b = lower b' ->
  text_to_tokens a = text_to_tokens a'
  /\ simple_similarity a b = simple_similarity a' b'.
Proof.
  intros Ha Hb.
  assert (text_to_tokens a = text_to_tokens a') as Hta
    by (rewrite <- (text_to_tokens_lower a), Ha; apply text_to_tokens_lower).
  assert (text_to_tokens b = text_to_tokens b') as Htb
    by (rewrite <- (text_to_tokens_lower b), Hb; apply text_to_tokens_lower).
  split; [exact Hta|].
  unfold simple_similarity. rewrite Hta, Htb. reflexivity.
Qed.

Lemma simple_similarity_ignores_case_witness :
  simple_similarity (lit "CATS Purr") (lit "Dogs") = simple_similarity (lit "cats purr") (lit "DOGS").
Proof.
  apply (simple_similarity_ignores_case (lit "CATS Purr") (lit "cats purr")
                                        (lit "Dogs") (lit "DOGS"));
    reflexivity.
Defined.

Lemma findall_words_break (a b : str) (c : ascii) :
  Char.is_word c = false ->
  forall cur, findall_words cur (a ++ c :: b) = findall_words cur a ++ findall_words [] b.
Proof.
  intros Hc. induction a as [|x a IH]; intros cur; cbn.
  - rewrite Hc. reflexivity.
  - destruct (Char.is_word x); [apply IH|].
    rewrite (IH []), app_assoc. reflexivity.
Qed.

(** X3: the tokens of two texts put together with a character between them that
    is not a word character are the tokens of the first and those of the
    second; so the text an article is scored by has the tokens of its title
    and those of its summary. *)
Theorem text_to_tokens_break (a b : str) (c : ascii) :
  Char.is_word c = false ->
  text_to_tokens (a ++ c :: b) = text_to_tokens a ∪ text_to_tokens b.
Proof.
  intros Hc. unfold text_to_tokens.
  rewrite (findall_words_break a b c Hc), map_app. apply list_to_set_app_L.
Qed.

Lemma text_to_tokens_break_witness :
  let h := MkArticle (lit "1") (lit "Cats are great") (lit "Cats purr.") [] [] None in
  text_to_tokens (hist_text h)
  = text_to_tokens (art_title h) ∪ text_to_tokens (art_summary h).
Proof.
  intros h. apply (text_to_tokens_break (art_title h) (art_summary h) " "%char).
  reflexivity.
Defined.

(** ** Positive scores *)

Lemma round_half_even_ge n d :
  (0 < d)%Z -> (d <= n)%Z -> (1 <= round_half_even n d)%Z.
Proof.
  intros Hd Hn. unfold round_half_even.
  assert (1 <= n / d)%Z by (apply Z.div_le_lower_bound; lia).
  destruct (2 * (n mod d) ?= d)%Z; [destruct (Z.even _)|..]; lia.
Qed.

(** Below [2 ^ 1074] the scaled numerator is at least the denominator, so the
    quotient is not rounded to zero. *)
Lemma py_truediv_pos a b :
  (0 < a)%Z -> (a <= b)%Z -> (b < 2 ^ 1074)%Z -> (0 < py_truediv a b)%Q.
Proof.
  intros Ha Hab Hb. unfold py_truediv.
  replace (a =? 0)%Z with false by (symmetry; apply Z.eqb_neq; lia).
  pose proof (Z.log2_le_mono a b Hab) as Hk.
  pose proof (Z.log2_nonneg a) as Hla.
  destruct (Z.log2_spec a Ha) as [Ha1 _].
  destruct (Z.log2_spec b ltac:(lia)) as [_ Hb2].
  set (k := (Z.log2 b - Z.log2 a)%Z) in *.
  set (e0 := if (_ <=? _)%Z then (52 + k)%Z else (53 + k)%Z).
  assert (52 + k <= e0)%Z as He0 by (unfold e0; destruct (_ <=? _)%Z; lia).
  set (e := Z.min e0 1074).
  assert (52 <= e)%Z as He by (unfold e; lia).
  rewrite (Z.max_l e 0), (Z.max_r (- e) 0) by lia.
  cbn [Z.pow]. rewrite !Z.mul_1_r.
  assert (b <= a * 2 ^ e)%Z as Hscaled.
  { destruct (Z.le_gt_cases 1074 e0) as [Hcap|Hcap].
    - replace e with 1074%Z by (unfold e; lia).
      assert (0 < 2 ^ 1074)%Z by (apply Z.pow_pos_nonneg; lia). nia.
    - replace e with e0 by (unfold e; lia).
      assert (2 ^ (Z.log2 a + (52 + k)) <= a * 2 ^ e0)%Z as Hlow.
      { rewrite Z.pow_add_r by lia.
        assert (2 ^ (52 + k) <= 2 ^ e0)%Z by (apply Z.pow_le_mono_r; lia).
        assert (0 < 2 ^ (52 + k))%Z by (apply Z.pow_pos_nonneg; lia).
        nia. }
      assert (2 ^ Z.succ (Z.log2 b) <= 2 ^ (Z.log2 a + (52 + k)))%Z
        by (apply Z.pow_le_mono_r; unfold k; lia).
      lia. }
  pose proof (round_half_even_ge (a * 2 ^ e) b ltac:(lia) Hscaled) as Hm.
  unfold Qlt. cbn [Qnum Qden]. lia.
Qed.

(** X4: for fewer than [2 ^ 1074] tokens, the score of two texts is positive
    exactly when they have a token in common. *)
Theorem simple_similarity_positive (a b : str) :
  (Z.of_nat (size (text_to_tokens a) + size (text_to_tokens b)) < 2 ^ 1074)%Z ->
  (0 < simple_similarity a b)%Q <-> text_to_tokens a ∩ text_to_tokens b <> ∅.
Proof.
  intros Hsmall. unfold simple_similarity.
  pose proof (inter_size_le (text_to_tokens a) (text_to_tokens b)) as Hinter.
  split.
  - intros Hpos Hnone. rewrite Hnone, size_empty in Hpos.
    destruct (bool_decide _ || bool_decide _); exact (Qlt_irrefl 0 Hpos).
  - intros Hcommon.
    assert (size (text_to_tokens a ∩ text_to_tokens b) <> 0) as Hsize.
    { intros Hz. apply size_empty_inv, leibniz_equiv in Hz. contradiction. }
    rewrite !bool_decide_eq_false_2.
    + apply py_truediv_pos; lia.
    + intros Hb. apply Hcommon. rewrite Hb. apply (right_absorb_L ∅ (∩)).
    + intros Ha. apply Hcommon. rewrite Ha. apply (left_absorb_L ∅ (∩)).
Qed.

Lemma simple_similarity_positive_witness :
  (0 < simple_similarity (lit "Cats are great") (lit "cats are wonderful pets"))%Q.
Proof.
  apply (simple_similarity_positive (lit "Cats are great") (lit "cats are wonderful pets")).
  - vm_compute. reflexivity.
  - vm_compute. discriminate.
Defined.

(** A positive score needs a common token, whatever the number of tokens. *)
Lemma simple_similarity_positive_common (a b : str) :
  (0 < simple_similarity a b)%Q -> text_to_tokens a ∩ text_to_tokens b <> ∅.
Proof.
  unfold simple_similarity. intros Hpos Hnone. rewrite Hnone, size_empty in Hpos.
  destruct (bool_decide _ || bool_decide _); exact (Qlt_irrefl 0 Hpos).
Qed.

(** ** Short, blank and unpunctuated texts *)

Lemma join_cons (sep p q : str) (ps : list str) :
  join sep (p :: q :: ps) = p ++ sep ++ join sep (q :: ps).
Proof. reflexivity. Qed.

Lemma join_take_length (sep : str) (ps : list str) (n : nat) :
  length (join sep (take n ps)) <= length (join sep ps).
Proof.
  revert n. induction ps as [|p ps IH]; intros n.
  - rewrite take_nil. reflexivity.
  - destruct n as [|n]; [cbn; lia|].
    destruct ps as [|q ps]; [cbn [take]; rewrite take_nil; reflexivity|].
    destruct n as [|n].
    + rewrite join_cons, length_app. cbn. lia.
    + specialize (IH (S n)).
      change (take (S (S n)) (p :: q :: ps)) with (p :: q :: take n ps).
      change (take (S n) (q :: ps)) with (q :: take n ps) in IH.
      rewrite !join_cons, !length_app. lia.
Qed.

Lemma cons_head_join (c : ascii) (ps : list str) :
  ps <> [] -> join (lit " ") (cons_head c ps) = c :: join (lit " ") ps.
Proof. destruct ps as [|p [|q ps]]; [contradiction|reflexivity..]. Qed.

Lemma cons_head_not_nil (c : ascii) (ps : list str) : cons_head c ps <> [].
Proof. destruct ps; discriminate. Qed.

Lemma split_sentences_not_nil (s : str) :
  forall after_term in_sep, split_sentences after_term in_sep s <> [].
Proof.
  induction s as [|c s IH]; intros after_term in_sep; cbn; [discriminate|].
  destruct (Char.is_space c), in_sep, after_term;
    try apply cons_head_not_nil; try apply IH; discriminate.
Qed.

(** The sentences, joined by one space each, are not longer than the text:
    a separator has at least one character. *)
Lemma split_sentences_length (s : str) :
  forall after_term in_sep,
  length (join (lit " ") (split_sentences after_term in_sep s)) <= length s.
Proof.
  induction s as [|c s IH]; intros after_term in_sep; cbn [split_sentences length];
    [cbn; lia|].
  destruct (Char.is_space c).
  - destruct in_sep; [specialize (IH false true); lia|].
    destruct after_term.
    + pose proof (split_sentences_not_nil s false true) as Hne.
      specialize (IH false true).
      destruct (split_sentences false true s) as [|q ps]; [contradiction|].
      rewrite join_cons. cbn [app length lit list_ascii_of_string] in *. lia.
    + rewrite cons_head_join by apply split_sentences_not_nil.
      specialize (IH false false). cbn [length]. lia.
  - rewrite cons_head_join by apply split_sentences_not_nil.
    specialize (IH (Char.is_terminator c) false). cbn [length]. lia.
Qed.

Lemma strip_length (s : str) : length (strip s) <= length s.
Proof.
  unfold strip. etransitivity; [apply rstrip_length | apply lstrip_length].
Qed.

Lemma three_sentences_length (t : str) : length (three_sentences t) <= length t.
Proof.
  unfold three_sentences, slice_to. cbn [Z.leb Z.compare Z.to_nat Pos.to_nat Pos.iter_op Nat.add].
  etransitivity; [apply join_take_length|].
  etransitivity; [apply split_sentences_length | apply strip_length].
Qed.

(** X5: a text that is not longer than the bound is never cut: its summary is its
    first three sentences, without an ellipsis, and is not longer than the
    text. *)
Theorem summarize_text_short (t : str) (N : Z) :
  (Z.of_nat (length t) <= N)%Z ->
  summarize_text t N = three_sentences t
  /\ length (summarize_text t N) <= length t.
Proof.
  intros Hshort. pose proof (three_sentences_length t) as Hlen.
  assert (summarize_text t N = three_sentences t) as Heq.
  { unfold summarize_text. destruct t as [|c t]; [reflexivity|].
    replace (N <? _)%Z with false by (symmetry; apply Z.ltb_ge; lia).
    reflexivity. }
  split; [exact Heq | rewrite Heq; exact Hlen].
Qed.

Lemma summarize_text_short_witness :
  summarize_text (lit "One.  Two!   Three? Four.") 300 = lit "One. Two! Three?".
Proof.
  destruct (summarize_text_short (lit "One.  Two!   Three? Four.") 300) as [-> _].
  - vm_compute. discriminate.
  - reflexivity.
Defined.

Lemma lstrip_spaces (s : str) :
  Forall (fun c => Char.is_space c = true) s -> lstrip s = [].
Proof.
  induction 1 as [|c s Hc _ IH]; [reflexivity|]. cbn. rewrite Hc. exact IH.
Qed.

(** X6: a text of white space only has the empty summary, for every bound that is
    not negative. *)
Theorem summarize_text_blank (t : str) (N : Z) :
  (0 <= N)%Z -> Forall (fun c => Char.is_space c = true) t ->
  summarize_text t N = [].
Proof.
  intros HN Hblank. unfold summarize_text. destruct t as [|c t]; [reflexivity|].
  assert (three_sentences (c :: t) = []) as ->.
  { unfold three_sentences, strip. rewrite (lstrip_spaces _ Hblank). reflexivity. }
  replace (N <? _)%Z with false by (symmetry; apply Z.ltb_ge; cbn; lia).
  reflexivity.
Qed.

Lemma summarize_text_blank_witness :
  summarize_text (lit "   " ++ nl) 300 = [].
Proof.
  apply summarize_text_blank; [lia|]. repeat constructor.
Defined.

Lemma lstrip_Forall (P : ascii -> Prop) (s : str) : Forall P s -> Forall P (lstrip s).
Proof.
  induction 1 as [|c s Hc Hs IH]; [constructor|]. cbn.
  destruct (Char.is_space c); [exact IH | constructor; assumption].
Qed.

Lemma strip_Forall (P : ascii -> Prop) (s : str) : Forall P s -> Forall P (strip s).
Proof.
  intros H. unfold strip, rstrip.
  apply Forall_rev, lstrip_Forall, Forall_rev, lstrip_Forall, H.
Qed.

Lemma split_sentences_one (s : str) :
  Forall (fun c => Char.is_terminator c = false) s ->
  split_sentences false false s = [s].
Proof.
  induction 1 as [|c s Hc _ IH]; [reflexivity|]. cbn.
  rewrite Hc, IH. destruct (Char.is_space c); reflexivity.
Qed.

(** X7: a text without [.], [!] and [?] is one sentence: its summary is the text
    without the white space around it, cut at the bound when it is longer. *)
Theorem summarize_text_one_sentence (t : str) (N : Z) :
  (0 <= N)%Z -> Forall (fun c => Char.is_terminator c = false) t ->
  summarize_text t N =
  if (N <? Z.of_nat (length (strip t)))%Z
  then rstrip (take (Z.to_nat N) (strip t)) ++ lit "..."
  else strip t.
Proof.
  intros HN Hone.
  assert (three_sentences t = strip t) as Hthree.
  { unfold three_sentences. rewrite (split_sentences_one _ (strip_Forall _ _ Hone)).
    reflexivity. }
  unfold summarize_text. rewrite Hthree. destruct t as [|c t].
  - replace (N <? _)%Z with false by (symmetry; apply Z.ltb_ge; cbn; lia).
    reflexivity.
  - unfold slice_to.
    replace (0 <=? N)%Z with true by (symmetry; apply Z.leb_le; exact HN).
    reflexivity.
Qed.

Lemma summarize_text_one_sentence_witness :
  summarize_text (lit "  breaking news from the capital ") 13 = lit "breaking news...".
Proof.
  rewrite summarize_text_one_sentence; [reflexivity | lia |].
  apply Forall_forall. intros c Hin.
  repeat (apply elem_of_cons in Hin as [->|Hin]; [reflexivity|]).
  apply elem_of_nil in Hin. contradiction.
Defined.

(** ** The composed summary *)

Lemma summarize_text_length (t : str) (N : Z) :
  (0 <= N)%Z -> length (summarize_text t N) <= Z.to_nat N + 3.
Proof.
  intros HN. unfold summarize_text. destruct t as [|c t]; [cbn; lia|].
  destruct (N <? _)%Z eqn:Hlt.
  - rewrite length_app.
    pose proof (rstrip_length (slice_to (three_sentences (c :: t)) N)) as Hr.
    rewrite slice_to_length in Hr by assumption.
    change (length (lit "...")) with 3. lia.
  - apply Z.ltb_ge in Hlt. lia.
Qed.

(** A composed summary has at most 349 characters and starts with the summary
    of the article alone. *)
Lemma compose_length (article : Article) (ctx : list Article) :
  let base := summarize_text (art_summary article) default_max_chars in
  length (compose article ctx) <= 349
  /\ exists rest, compose article ctx = base ++ rest.
Proof.
  intros base. unfold compose. fold base.
  assert (length base <= 303) as Hbase
    by (apply (summarize_text_length _ default_max_chars); discriminate).
  assert (exists rest, base = base ++ rest) as Hself
    by (exists []; symmetry; apply app_nil_r).
  destruct ctx; [split; [lia | exact Hself]|].
  destruct (rel_titles _); [split; [lia | exact Hself]|].
  destruct (_ <? 350)%Z eqn:Hlt; [|split; [lia | exact Hself]].
  apply Z.ltb_lt in Hlt. split; [|eexists; reflexivity].
  rewrite !length_app. change (length (lit " | ")) with 3. lia.
Qed.

(** X8: the summary of an article has at most 349 characters, whatever the
    history and the number of context articles asked for, and it starts with
    the summary of the article alone. *)
Theorem build_rag_summary_length (article : Article) (history : list Article) :
  let base := summarize_text (art_summary article) default_max_chars in
  (length (build_rag_summary article history) <= 349
   /\ exists rest, build_rag_summary article history = base ++ rest)
  /\ (forall top_k,
        length (Display.build_rag_summary article history top_k) <= 349
        /\ exists rest, Display.build_rag_summary article history top_k = base ++ rest).
Proof.
  intros base. split; [|intros top_k]; apply compose_length.
Qed.

Lemma select_context_shares_token (article : Article) (history : list Article)
    (top_k : Z) (h : Article) :
  h ∈ select_context article history top_k ->
  h ∈ history
  /\ text_to_tokens (new_text article) ∩ text_to_tokens (hist_text h) <> ∅.
Proof.
  unfold select_context. intros Hin.
  apply list_elem_of_fmap in Hin as ([s h'] & -> & Hin).
  apply list_elem_of_filter in Hin as [Hpos Hin]. cbn in Hpos |- *.
  assert ((s, h') ∈ ranked article history) as Hranked.
  { unfold slice_to in Hin. destruct (0 <=? top_k)%Z; apply subseteq_take in Hin; exact Hin. }
  unfold ranked in Hranked. rewrite sort_reverse_perm in Hranked. unfold scores in Hranked.
  apply list_elem_of_fmap in Hranked as (h0 & Heq & Hh0). injection Heq as -> ->.
  split; [exact Hh0|].
  apply simple_similarity_positive_common, float_ltb_true, Hpos.
Qed.

(** X9: an article of the context comes from the history and has a token in
    common with the new article; the context has at most [top_k] articles. *)
Theorem select_context_sound (article : Article) (history : list Article)
    (top_k : Z) :
  (0 <= top_k)%Z ->
  length (select_context article history top_k) <= Z.to_nat top_k
  /\ (forall h, h ∈ select_context article history top_k ->
        h ∈ history
        /\ text_to_tokens (new_text article) ∩ text_to_tokens (hist_text h) <> ∅).
Proof.
  intros Hk. split; [|intros h; apply select_context_shares_token].
  unfold select_context. rewrite length_map.
  etransitivity; [apply length_filter|].
  rewrite slice_to_length by exact Hk. lia.
Qed.

Lemma select_context_sound_witness :
  let new := MkArticle (lit "3") (lit "Cats and dogs") (lit "Cats purr.") [] [] None in
  let h1 := MkArticle (lit "1") (lit "Dogs") (lit "Dogs bark.") [] [] None in
  let h2 := MkArticle (lit "2") (lit "Birds") (lit "Birds sing.") [] [] None in
  length (select_context new [h1; h2] 3) <= 3
  /\ text_to_tokens (new_text new) ∩ text_to_tokens (hist_text h1) <> ∅.
Proof.
  intros new h1 h2.
  assert (0 <= 3)%Z as Hk by lia.
  destruct (select_context_sound new [h1; h2] 3 Hk) as [Hlen Hsound].
  split; [exact Hlen|].
  apply (Hsound h1). vm_compute. left.
Defined.

(** X10: an article that has no token in common with any article of the history
    (an empty history is the first case) gets the summary of its own text,
    with nothing added. *)
Theorem build_rag_summary_no_overlap (article : Article) (history : list Article) :
  (forall h, h ∈ history ->
     text_to_tokens (new_text article) ∩ text_to_tokens (hist_text h) = ∅) ->
  build_rag_summary article history
  = summarize_text (art_summary article) default_max_chars.
Proof.
  intros Hnone. unfold build_rag_summary.
  destruct (select_context article history 3) as [|h ctx] eqn:Hctx; [reflexivity|].
  assert (h ∈ select_context article history 3) as Hin by (rewrite Hctx; left).
  apply select_context_shares_token in Hin as [Hh Hcommon].
  destruct (Hcommon (Hnone h Hh)).
Qed.

Lemma build_rag_summary_no_overlap_witness :
  build_rag_summary (parse_entry cats) [parse_entry dogs; parse_entry birds]
  = lit "Cats are great. They purr.".
Proof.
  rewrite build_rag_summary_no_overlap; [reflexivity|].
  intros h Hin.
  repeat (apply elem_of_cons in Hin as [->|Hin]; [vm_compute; reflexivity|]).
  apply elem_of_nil in Hin. contradiction.
Defined.

(** ** Entries *)

Lemma or_else_nil (x : option str) (y : str) :
  or_else x y = [] <-> getattr x = [] /\ y = [].
Proof.
  destruct x as [[|c s]|]; cbn; split; try tauto;
    try (intros H; discriminate H); intros [H _]; discriminate H.
Qed.

(** X11: the id of an entry is its [id] when it has one that is not empty, and
    else its [link] when it has one that is not empty; the id is empty exactly
    when the entry has no [id], no [link], no [title] and no [published], or
    empty ones. *)
Theorem extract_entry_id_cases (entry : Entry) :
  (getattr (entry_id entry) <> [] -> extract_entry_id entry = getattr (entry_id entry))
  /\ (getattr (entry_id entry) = [] -> getattr (entry_link entry) <> [] ->
      extract_entry_id entry = getattr (entry_link entry))
  /\ (extract_entry_id entry = [] <->
      getattr (entry_id entry) = [] /\ getattr (entry_link entry) = []
      /\ getattr (entry_title entry) = [] /\ getattr (entry_published entry) = []).
Proof.
  unfold extract_entry_id. split; [|split].
  - destruct (entry_id entry) as [[|c s]|]; cbn; [contradiction | reflexivity | contradiction].
  - intros Hid Hlink.
    destruct (entry_id entry) as [[|c s]|]; try discriminate Hid;
      destruct (entry_link entry) as [[|d u]|]; cbn in *;
      try contradiction; reflexivity.
  - rewrite !or_else_nil. split.
    + intros (Hid & Hlink & Hrest). apply app_eq_nil in Hrest. tauto.
    + intros (Hid & Hlink & Htitle & Hpub). rewrite Htitle, Hpub. tauto.
Qed.

Lemma extract_entry_id_cases_witness :
  extract_entry_id (MkEntry None (Some (lit "https://example.org/1")) None None None None)
  = lit "https://example.org/1"
  /\ extract_entry_id (MkEntry (Some []) None (Some []) (Some (lit "text")) None None) = [].
Proof.
  split.
  - destruct (extract_entry_id_cases
                (MkEntry None (Some (lit "https://example.org/1")) None None None None))
      as (_ & Hlink & _).
    apply Hlink; [reflexivity | discriminate].
  - apply extract_entry_id_cases. repeat split.
Defined.

(** ** Fetching *)

(** X12: fetching gives the articles of all the feeds, feed after feed in the order
    of [RSS_FEEDS] and in the order of each feed; it prints one line for each
    feed and does nothing else: nothing is posted, the state file is left as
    it is. *)
Theorem fetch_new_articles_spec (E : Env) (w : World) :
  fetch_new_articles E w
  = (Ok (flat_map (fun url => map parse_entry (feedparser_parse E url)) (RSS_FEEDS E)),
     {| disk := disk w;
        trace := trace w ++ map (fun url => Print (lit "Fetching: " ++ url)) (RSS_FEEDS E) |}).
Proof.
  unfold fetch_new_articles. generalize (RSS_FEEDS E) as urls.
  intros urls. revert w. induction urls as [|url urls IH]; intros w.
  - destruct w. cbn. rewrite app_nil_r. reflexivity.
  - cbn [fetch_feeds flat_map map]. unfold mbind, M_bind, print, emit.
    rewrite IH. cbn [disk trace]. rewrite <- app_assoc. reflexivity.
Qed.

(** ** Runs that cannot load the state, runs that may send nothing *)

(** X13: with a state file that cannot be opened or that is not a JSON document
    the run raises at once: nothing is fetched, printed or posted, and the
    file is not written over. *)
Theorem run_aborts_on_bad_state (E : Env) (w : World) :
  disk w = Some Unreadable \/ disk w = Some (Readable None) ->
  exists e, run_rss_to_telegram E w = (Raise e, w).
Proof.
  intros Hbad. unfold run_rss_to_telegram.
  unfold mbind at 1. unfold M_bind at 1. rewrite load_state_eq.
  destruct Hbad as [-> | ->]; eexists; reflexivity.
Qed.

Lemma run_aborts_on_bad_state_witness :
  exists e,
    run_rss_to_telegram (example_env [cats] 5 true)
                        {| disk := Some (Readable None); trace := [] |}
    = (Raise e, {| disk := Some (Readable None); trace := [] |}).
Proof.
  apply run_aborts_on_bad_state. right. reflexivity.
Defined.

(** X14: a run only adds to the ledger: the ids seen before are still seen, the
    history is the old one followed by one record for each delivered article;
    when every id of the old history was seen, so is every id of the new one;
    and when moreover the ids of the old history and the ids of the feeds
    are without repetition, so are the ids of the new history. *)
Theorem run_keeps_ledger (E : Env) (w : World) (st : State) :
  load_state w = (Ok st, w) ->
  exists w' st',
    run_rss_to_telegram E w = (Ok tt, w')
    /\ load_state w' = (Ok st', w')
    /\ seen_of st ⊆ seen_of st'
    /\ map art_id (history_of st')
       = map art_id (history_of st) ++ map art_id (delivered E st)
    /\ (exists recs, history_of st' = history_of st ++ recs)
    /\ ((forall r, r ∈ history_of st -> art_id r ∈ seen_of st) ->
        (forall r, r ∈ history_of st' -> art_id r ∈ seen_of st')
        /\ (NoDup (map art_id (history_of st)) -> NoDup (map art_id (fetched E)) ->
            NoDup (map art_id (history_of st')))).
Proof.
  intros Hload.
  destruct (run_ledger E w st Hload)
    as (w' & evs & st' & recs & Hrun & _ & Hload' & _ & Hseen & Hhist & Hrecs).
  apply records_ids in Hrecs.
  exists w', st'. do 2 (split; [assumption|]).
  split; [rewrite Hseen; apply union_subseteq_l|].
  split; [rewrite Hhist, map_app, Hrecs; reflexivity|].
  split; [exists recs; exact Hhist|].
  intros Hinv. split.
  - intros r Hr. rewrite Hhist in Hr. rewrite Hseen, elem_of_union.
    apply elem_of_app in Hr as [Hold|Hnew]; [left; apply Hinv, Hold|].
    right. apply elem_of_list_to_set. rewrite <- Hrecs.
    apply list_elem_of_fmap_2, Hnew.
  - intros Hold Hfeeds. rewrite Hhist, map_app, Hrecs. apply NoDup_app.
    split; [exact Hold|]. split; [|apply delivered_ids_NoDup, Hfeeds].
    intros id Hin Hdel.
    apply list_elem_of_fmap in Hin as (r & -> & Hr).
    apply list_elem_of_fmap in Hdel as (a & Heq & Ha).
    apply (delivered_unseen E st a) in Ha as [_ Hnot].
    apply Hnot. rewrite <- Heq. apply Hinv, Hr.
Qed.

Lemma run_keeps_ledger_witness :
  exists w' st',
    run_rss_to_telegram (example_env [cats; dogs] 1 true) fresh = (Ok tt, w')
    /\ load_state w' = (Ok st', w')
    /\ map art_id (history_of st') = [lit "2"].
Proof.
  assert (load_state fresh
          = (Ok {| st_seen_ids := Some []; st_articles := Some [] |}, fresh)) as Hload
    by reflexivity.
  destruct (run_keeps_ledger (example_env [cats; dogs] 1 true) fresh _ Hload)
    as (w' & st' & Hrun & Hload' & _ & Hids & _).
  exists w', st'. do 2 (split; [assumption|]).
  rewrite Hids. vm_compute. reflexivity.
Defined.

(** X15: with a bound of zero or less a run posts nothing and leaves the ledger as
    it loaded it. *)
Theorem run_with_no_room (E : Env) (w : World) (st : State) :
  load_state w = (Ok st, w) ->
  (MAX_TELEGRAM_MESSAGES_PER_RUN E <= 0)%Z ->
  exists w' evs st',
    run_rss_to_telegram E w = (Ok tt, w')
    /\ trace w' = trace w ++ evs
    /\ posts evs = []
    /\ load_state w' = (Ok st', w')
    /\ seen_of st' = seen_of st
    /\ history_of st' = history_of st.
Proof.
  intros Hload Hmax.
  destruct (run_ledger E w st Hload)
    as (w' & evs & st' & recs & Hrun & Htrace & Hload' & Hposts & Hseen & Hhist & Hrecs).
  assert (delivered E st = []) as Hd.
  { unfold delivered. replace (Z.to_nat _) with 0 by lia. apply take_0. }
  rewrite Hd in Hposts, Hseen, Hrecs.
  apply Forall2_nil_inv_l in Hposts. apply Forall2_nil_inv_l in Hrecs.
  exists w', evs, st'. do 4 (split; [assumption|]).
  split.
  - rewrite Hseen. cbn. apply (right_id_L ∅ (∪)).
  - rewrite Hhist, Hrecs. apply app_nil_r.
Qed.

Lemma run_with_no_room_witness :
  exists w',
    run_rss_to_telegram (example_env [cats; dogs] 0 true) fresh = (Ok tt, w')
    /\ posts (trace w') = [].
Proof.
  assert (load_state fresh
          = (Ok {| st_seen_ids := Some []; st_articles := Some [] |}, fresh)) as Hload
    by reflexivity.
  destruct (run_with_no_room (example_env [cats; dogs] 0 true) fresh _ Hload)
    as (w' & evs & st' & Hrun & Htrace & Hposts & _); [cbn; lia|].
  exists w'. split; [exact Hrun|]. rewrite Htrace. exact Hposts.
Defined.

(** ** Sorting a part of a list *)

Section SortFilter.
Context {A K : Type} (ltb : K -> K -> bool) (key : A -> K).
Context (P : A -> Prop) `{!forall x, Decision (P x)}.

Hypothesis ltb_irrefl : forall k, ltb k k = false.
Hypothesis ltb_trans :
  forall k1 k2 k3, ltb k1 k2 = true -> ltb k2 k3 = true -> ltb k1 k3 = true.
Hypothesis ltb_negtrans :
  forall k1 k2 k3, ltb k1 k2 = false -> ltb k2 k3 = false -> ltb k1 k3 = false.

Lemma insert_desc_front x l :
  Forall (key_ge ltb key x) l -> insert_desc ltb key x l = x :: l.
Proof.
  destruct 1 as [|y l Hy _]; [reflexivity|]. cbn. unfold key_ge in Hy.
  rewrite Hy. reflexivity.
Qed.

Lemma filter_insert_desc x l :
  StronglySorted (key_ge ltb key) l ->
  filter P (insert_desc ltb key x l)
  = if decide (P x) then insert_desc ltb key x (filter P l) else filter P l.
Proof.
  induction 1 as [|y l Hs IH Hy].
  { cbn [insert_desc]. rewrite filter_cons, filter_nil.
    destruct (decide (P x)); reflexivity. }
  cbn [insert_desc]. destruct (ltb (key x) (key y)) eqn:Hlt.
  - rewrite !(filter_cons _ y), IH.
    destruct (decide (P x)), (decide (P y)); try reflexivity.
    cbn [insert_desc]. rewrite Hlt. reflexivity.
  - rewrite (filter_cons _ x). destruct (decide (P x)); [|reflexivity].
    symmetry. apply insert_desc_front.
    apply Forall_forall. intros z Hz.
    apply list_elem_of_filter in Hz as [_ Hz].
    apply elem_of_cons in Hz as [->|Hz]; [exact Hlt|].
    rewrite Forall_forall in Hy. eapply ltb_negtrans; [exact Hlt | apply Hy, Hz].
Qed.

(** Sorting the elements of a kind gives the elements of that kind of the
    sorted list. *)
Lemma sort_reverse_filter l :
  sort_reverse ltb key (filter P l) = filter P (sort_reverse ltb key l).
Proof.
  induction l as [|x l IH]; [reflexivity|].
  rewrite sort_reverse_cons, filter_insert_desc
    by (apply sort_reverse_sorted; assumption).
  rewrite filter_cons. destruct (decide (P x)); [|exact IH].
  rewrite sort_reverse_cons, IH. reflexivity.
Qed.
End SortFilter.

Lemma filter_all {A} (P : A -> Prop) `{!forall x, Decision (P x)} (l : list A) :
  Forall P l -> filter P l = l.
Proof.
  induction 1 as [|x l Hx _ IH]; [reflexivity|].
  rewrite filter_cons_True, IH by assumption. reflexivity.
Qed.

(** Without the elements that have the key of one of the first [n], a list
    with distinct keys is what comes after the first [n]. *)
Lemma filter_not_in_take {A B} `{EqDecision B} (f : A -> B) (n : nat) (l : list A) :
  NoDup (map f l) ->
  filter (fun a => f a ∉ map f (take n l)) l = drop n l.
Proof.
  intros Hnodup. rewrite <- (take_drop n l) in Hnodup.
  rewrite map_app in Hnodup. apply NoDup_app in Hnodup as (_ & Hdisj & _).
  remember (map f (take n l)) as firsts eqn:Hfirsts.
  rewrite <- (take_drop n l) at 1. rewrite filter_app.
  rewrite filter_none, filter_all; [reflexivity| |].
  - apply Forall_forall. intros a Ha Hin.
    apply (Hdisj (f a) Hin). apply list_elem_of_fmap_2, Ha.
  - intros a Ha Hnot. apply Hnot. rewrite Hfirsts. apply list_elem_of_fmap_2, Ha.
Qed.

(** ** The backlog *)

Lemma delivery_order_ids_NoDup (E : Env) (st : State) :
  NoDup (map art_id (fetched E)) -> NoDup (map art_id (delivery_order E st)).
Proof.
  intros Hnodup.
  assert (NoDup (art_id <$> unseen_of E st)) as Hunseen.
  { eapply sublist_NoDup; [exact Hnodup|].
    apply (fmap_sublist art_id), sublist_filter. }
  change (NoDup (art_id <$> delivery_order E st)).
  unfold delivery_order. rewrite sort_reverse_perm. exact Hunseen.
Qed.

(** X16: when the ids of the feeds are distinct, the articles a run leaves
    undelivered are the unseen articles of the next run on the same feeds, in
    the same order: run after run the articles are delivered in the order of
    the first run, as many as the bound each time. *)
Theorem next_run_continues (E : Env) (w : World) (st : State) :
  load_state w = (Ok st, w) ->
  NoDup (map art_id (fetched E)) ->
  exists w' st',
    run_rss_to_telegram E w = (Ok tt, w')
    /\ load_state w' = (Ok st', w')
    /\ delivery_order E st'
       = drop (Z.to_nat (MAX_TELEGRAM_MESSAGES_PER_RUN E)) (delivery_order E st)
    /\ delivered E st'
       = take (Z.to_nat (MAX_TELEGRAM_MESSAGES_PER_RUN E))
              (drop (Z.to_nat (MAX_TELEGRAM_MESSAGES_PER_RUN E)) (delivery_order E st)).
Proof.
  intros Hload Hnodup.
  destruct (run_ledger E w st Hload)
    as (w' & evs & st' & recs & Hrun & _ & Hload' & _ & Hseen & _).
  exists w', st'. do 2 (split; [assumption|]).
  assert (delivery_order E st'
          = drop (Z.to_nat (MAX_TELEGRAM_MESSAGES_PER_RUN E)) (delivery_order E st))
    as Horder.
  { unfold delivery_order at 1.
    assert (unseen_of E st'
            = filter (fun a => art_id a ∉ map art_id (delivered E st)) (unseen_of E st))
      as ->.
    { unfold unseen_of. rewrite list_filter_filter. apply list_filter_iff.
      intros a. rewrite Hseen, not_elem_of_union, elem_of_list_to_set. tauto. }
    rewrite sort_reverse_filter
      by (apply str_ltb_irrefl || apply str_ltb_trans || apply str_ltb_negtrans).
    apply (filter_not_in_take art_id), delivery_order_ids_NoDup, Hnodup. }
  split; [exact Horder|]. unfold delivered at 1. rewrite Horder. reflexivity.
Qed.

Lemma next_run_continues_witness :
  let E := example_env [cats; dogs; birds] 2 true in
  exists w' st',
    run_rss_to_telegram E fresh = (Ok tt, w')
    /\ load_state w' = (Ok st', w')
    /\ delivered E st' = [parse_entry cats].
Proof.
  intros E.
  assert (load_state fresh
          = (Ok {| st_seen_ids := Some []; st_articles := Some [] |}, fresh)) as Hload
    by reflexivity.
  assert (NoDup (map art_id (fetched E))) as Hnodup.
  { vm_compute. repeat (constructor; [intros Hin; repeat (apply elem_of_cons in Hin as [Hin|Hin]; [discriminate|]); apply elem_of_nil in Hin; contradiction|]). constructor. }
  destruct (next_run_continues E fresh _ Hload Hnodup)
    as (w' & st' & Hrun & Hload' & _ & Hnext).
  exists w', st'. do 2 (split; [assumption|]).
  rewrite Hnext. vm_compute. reflexivity.
Defined.

(** ** The records of one run *)

(** X17: the history after a run is the history before it followed by the records
    of the delivered articles; the summary of each of them is built against
    the history as it is when its turn comes, with the records of the
    articles delivered before it in the same run. *)
Theorem run_records_chained (E : Env) (w : World) (st : State) :
  load_state w = (Ok st, w) ->
  exists w' st' recs,
    run_rss_to_telegram E w = (Ok tt, w')
    /\ load_state w' = (Ok st', w')
    /\ history_of st' = history_of st ++ recs
    /\ chained (history_of st) (delivered E st) recs.
Proof.
  intros Hload.
  destruct (fetch_feeds_spec E (RSS_FEEDS E) w) as (evs0 & Hfetch & _).
  rewrite (run_unfold E w _ st Hload Hfetch).
  unfold delivered, delivery_order.
  destruct (unseen_of E st) as [|a unseen] eqn:Hunseen.
  - change (sort_reverse str_ltb parse_pub []) with (@nil Article).
    eexists _, st, []. rewrite take_nil, app_nil_r.
    split; [reflexivity|]. split; [|split; [reflexivity | exact I]].
    eapply load_state_disk; [exact Hload | reflexivity].
  - unfold mbind, M_bind.
    match goal with
    | |- context [deliver E ?u ?L0 ?w0] =>
        destruct (deliver_chained E u L0 w0) as (L' & w1 & recs & -> & _ & Hhist & Hchain)
    end.
    cbn [history count_sent] in Hhist, Hchain. rewrite Z.sub_0_r in Hchain.
    unfold save_state, print, emit. cbn [disk trace].
    eexists _, _, recs. split; [reflexivity|].
    split; [rewrite load_state_eq; reflexivity|].
    split; [exact Hhist | exact Hchain].
Qed.

Lemma run_records_chained_witness :
  let E := example_env [entry "1" "Cats are great" "Cats purr." "2024-01-02";
                        entry "2" "Cats are wonderful pets" "Cats purr a lot." "2024-01-01"]
                       5 true in
  exists w' st',
    run_rss_to_telegram E fresh = (Ok tt, w')
    /\ load_state w' = (Ok st', w')
    /\ map art_summary (history_of st')
       = [lit "Cats purr."; lit "Cats purr a lot. | Related to: Cats are great"].
Proof.
  intros E.
  assert (load_state fresh
          = (Ok {| st_seen_ids := Some []; st_articles := Some [] |}, fresh)) as Hload
    by reflexivity.
  destruct (run_records_chained E fresh _ Hload)
    as (w' & st' & recs & Hrun & Hload' & Hhist & Hchain).
  exists w', st'. do 2 (split; [assumption|]).
  rewrite Hhist.
  assert (delivered E {| st_seen_ids := Some []; st_articles := Some [] |}
          = [parse_entry (entry "1" "Cats are great" "Cats purr." "2024-01-02");
             parse_entry (entry "2" "Cats are wonderful pets" "Cats purr a lot."
                                "2024-01-01")]) as Hd
    by (vm_compute; reflexivity).
  rewrite Hd in Hchain.
  destruct recs as [|r1 recs]; [destruct Hchain|].
  destruct Hchain as [[now1 ->] Hchain].
  destruct recs as [|r2 recs]; [destruct Hchain|].
  destruct Hchain as [[now2 ->] Hchain].
  destruct recs as [|r3 recs]; [|destruct Hchain].
  vm_compute. reflexivity.
Defined.

(** ** The list of feeds *)

Lemma flush_fields (cur : str) :
  Forall (fun c => Char.is_space c = false) cur -> Forall is_field (flush cur).
Proof.
  intros Hcur. destruct cur as [|c cur]; [constructor|].
  constructor; [|constructor]. split.
  - cbn. intros Hnil. apply app_eq_nil in Hnil as [_ Hnil]. discriminate.
  - apply Forall_rev. exact Hcur.
Qed.

Lemma split_fields_fields (s : str) :
  forall cur, Forall (fun c => Char.is_space c = false) cur ->
  Forall is_field (split_fields cur s).
Proof.
  induction s as [|c s IH]; intros cur Hcur; cbn.
  - apply flush_fields, Hcur.
  - destruct (Char.is_space c) eqn:Hc.
    + apply Forall_app. split; [apply flush_fields, Hcur | apply IH; constructor].
    + apply IH. constructor; assumption.
Qed.

Lemma split_fields_blank (s : str) :
  Forall (fun c => Char.is_space c = true) s -> split_fields [] s = [].
Proof.
  induction 1 as [|c s Hc _ IH]; [reflexivity|]. cbn. rewrite Hc. exact IH.
Qed.

(** X18: the list of feeds is never empty and has no empty address and none with
    white space; it is the two default feeds when the variable is not set, is
    empty or has white space only. *)
Theorem rss_feeds_of_environ_fields (value : option str) :
  rss_feeds_of_environ value <> []
  /\ Forall is_field (rss_feeds_of_environ value)
  /\ (Forall (fun c => Char.is_space c = true) (default [] value) ->
      rss_feeds_of_environ value = DEFAULT_RSS_FEEDS).
Proof.
  unfold rss_feeds_of_environ.
  pose proof (split_fields_fields (default [] value) [] (Forall_nil_2 _)) as Hfields.
  split; [|split].
  - destruct (split_fields [] (default [] value)); discriminate.
  - destruct (split_fields [] (default [] value)); [|exact Hfields].
    repeat constructor; try discriminate;
      apply Forall_forall; intros c Hin;
      repeat (apply elem_of_cons in Hin as [->|Hin]; [reflexivity|]);
      apply elem_of_nil in Hin; contradiction.
  - intros Hblank. rewrite (split_fields_blank _ Hblank). reflexivity.
Qed.

Lemma rss_feeds_of_environ_fields_witness :
  rss_feeds_of_environ (Some (lit "  " ++ nl)) = DEFAULT_RSS_FEEDS
  /\ rss_feeds_of_environ (Some (lit " https://a.example/rss  https://b.example/rss"))
     = [lit "https://a.example/rss"; lit "https://b.example/rss"].
Proof.
  split; [|reflexivity].
  apply rss_feeds_of_environ_fields. repeat constructor.
Defined.

(** ** The display front-end *)

Lemma summarize_all_spec (all_articles : list Article) :
  forall history,
  exists out,
    Front.summarize_all history all_articles = history ++ out
    /\ map art_title out = map art_title all_articles
    /\ map art_link out = map art_link all_articles
    /\ Forall (fun r => length (art_summary r) <= 349) out
    /\ (forall art rest, all_articles = art :: rest ->
         exists out', out = Front.summarized art history :: out').
Proof.
  induction all_articles as [|art rest IH]; intros history.
  - exists []. rewrite app_nil_r. repeat split; [constructor | discriminate].
  - destruct (IH (history ++ [Front.summarized art history]))
      as (out & Heq & Htitles & Hlinks & Hlen & _).
    exists (Front.summarized art history :: out). cbn [Front.summarize_all map].
    rewrite Heq, <- app_assoc, Htitles, Hlinks.
    repeat split.
    + constructor; [apply compose_length | exact Hlen].
    + intros art' rest' Hcons. injection Hcons as <- <-. eexists. reflexivity.
Qed.

(** X19: the front-end shows one summary for each article, in the order of the
    articles and with their titles and links; each summary has at most 349
    characters, and the one of the first article is the summary of its own
    text. *)
Theorem summarize_all_shown (all_articles : list Article) :
  let shown := Front.summarize_all [] all_articles in
  map art_title shown = map art_title all_articles
  /\ map art_link shown = map art_link all_articles
  /\ Forall (fun r => length (art_summary r) <= 349) shown
  /\ (forall art rest, all_articles = art :: rest ->
       exists shown', shown = Front.summarized art [] :: shown'
         /\ art_summary (Front.summarized art [])
            = summarize_text (art_summary art) default_max_chars).
Proof.
  intros shown. destruct (summarize_all_spec all_articles [])
    as (out & Heq & Htitles & Hlinks & Hlen & Hhead).
  subst shown. rewrite Heq. cbn [app].
  do 3 (split; [assumption|]).
  intros art rest Hcons. destruct (Hhead art rest Hcons) as (out' & ->).
  exists out'. split; reflexivity.
Qed.

Lemma summarize_all_shown_witness :
  let a1 := Front.parse_entry (entry "1" "Cats are great" "Cats purr." "2024-01-02") in
  let a2 := Front.parse_entry (entry "2" "Cats are wonderful pets" "Cats purr a lot."
                                     "2024-01-01") in
  exists shown',
    Front.summarize_all [] [a1; a2] = Front.summarized a1 [] :: shown'
    /\ art_summary (Front.summarized a1 []) = lit "Cats purr.".
Proof.
  intros a1 a2.
  destruct (summarize_all_shown [a1; a2]) as (_ & _ & _ & Hhead).
  destruct (Hhead a1 [a2] eq_refl) as (shown' & Heq & Hsum).
  exists shown'. split; [exact Heq|]. rewrite Hsum. reflexivity.
Defined.

Example summarize_all_example :
  map art_summary
      (Front.summarize_all []
         [Front.parse_entry (entry "1" "Cats are great" "Cats purr." "2024-01-02");
          Front.parse_entry (entry "2" "Cats are wonderful pets" "Cats purr a lot."
                                   "2024-01-01")])
  = [lit "Cats purr."; lit "Cats purr a lot. | Related to: Cats are great"].
Proof. vm_compute. reflexivity. Qed.

(** ** Messages *)

Lemma message_of_length (title rag_summary link : str) :
  length (message_of title rag_summary link)
  <= length title + length rag_summary + length link + 26.
Proof.
  unfold message_of.
  destruct (bool_decide (title = [])), (bool_decide (rag_summary = [])),
    (bool_decide (link = []));
    cbn [app join]; rewrite ?length_app; cbn [length lit list_ascii_of_string nl app];
    rewrite ?length_app; cbn [length]; lia.
Qed.

Lemma message_of_nil (title rag_summary link : str) :
  message_of title rag_summary link = []
  <-> title = [] /\ rag_summary = [] /\ link = [].
Proof.
  unfold message_of. split.
  - destruct (bool_decide_reflect (title = [])) as [Ht|_],
      (bool_decide_reflect (rag_summary = [])) as [Hs|_],
      (bool_decide_reflect (link = [])) as [Hl|_];
      try tauto; intros H; cbn in H; discriminate H.
  - intros (-> & -> & ->). reflexivity.
Qed.

(** X20: the message of an article has at most 375 characters more than its title
    and its link together; it is empty exactly when the title and the link
    are empty or white space and the summary is empty. *)
Theorem message_for_length (article : Article) (history : list Article) :
  length (message_for article history)
  <= length (art_title article) + length (art_link article) + 375
  /\ (message_for article history = [] <->
      strip (art_title article) = [] /\ build_rag_summary article history = []
      /\ strip (art_link article) = []).
Proof.
  unfold message_for. split; [|apply message_of_nil].
  etransitivity; [apply message_of_length|].
  pose proof (strip_length (art_title article)).
  pose proof (strip_length (art_link article)).
  destruct (compose_length article (select_context article history 3)) as [Hsum _].
  unfold build_rag_summary. lia.
Qed.

Lemma message_for_length_witness :
  message_for (MkArticle (lit "9") (lit "  ") [] (lit " ") [] None) [] = [].
Proof.
  apply message_for_length. repeat split.
Defined.

(** ** The last line of a run *)

Lemma last_two {A} (l : list A) (a b : A) : last (l ++ [a; b]) = Some b.
Proof. change [a; b] with ([a] ++ [b]). rewrite app_assoc. apply last_snoc. Qed.

(** X21: a run that finds unseen articles ends with the line that gives the number
    of messages it posted, refused ones included. *)
Theorem run_reports_posts (E : Env) (w : World) (st : State) :
  load_state w = (Ok st, w) ->
  unseen_of E st <> [] ->
  exists w' evs,
    run_rss_to_telegram E w = (Ok tt, w')
    /\ trace w' = trace w ++ evs
    /\ last evs
       = Some (Print (lit "Done. Sent " ++ str_of_int (Z.of_nat (length (posts evs)))
                      ++ lit " messages.")).
Proof.
  intros Hload Hsome.
  destruct (fetch_feeds_spec E (RSS_FEEDS E) w) as (evs0 & Hfetch & Hp0 & _).
  rewrite (run_unfold E w _ st Hload Hfetch).
  destruct (unseen_of E st) as [|a unseen] eqn:Hunseen; [contradiction|].
  unfold mbind, M_bind.
  match goal with
  | |- context [deliver E ?u ?L0 ?w0] =>
      destruct (deliver_spec E u L0 w0)
        as (L' & evs & recs & -> & _ & _ & _ & Hcount & _ & Hposts)
  end.
  cbn [count_sent disk trace] in *.
  apply Forall2_length in Hposts.
  unfold save_state, print, emit. cbn [disk trace].
  eexists _, (evs0 ++ evs ++ [_; _]). rewrite <- !app_assoc.
  split; [reflexivity|]. split; [reflexivity|].
  rewrite (app_assoc evs0), last_two, !posts_app, Hp0.
  cbn [posts omap app]. rewrite app_nil_r.
  rewrite Hcount, Hposts. reflexivity.
Qed.

Lemma run_reports_posts_witness :
  exists w',
    run_rss_to_telegram (example_env [cats; dogs] 5 false) fresh = (Ok tt, w')
    /\ last (trace w') = Some (Print (lit "Done. Sent 2 messages.")).
Proof.
  assert (load_state fresh
          = (Ok {| st_seen_ids := Some []; st_articles := Some [] |}, fresh)) as Hload
    by reflexivity.
  destruct (run_reports_posts (example_env [cats; dogs] 5 false) fresh _ Hload)
    as (w' & evs & Hrun & Htrace & Hlast); [vm_compute; discriminate|].
  exists w'. split; [exact Hrun|].
  assert (trace w' = trace (snd (run_rss_to_telegram (example_env [cats; dogs] 5 false) fresh)))
    as -> by (rewrite Hrun; reflexivity).
  vm_compute. reflexivity.
Defined.
